(** * Visibility: astronomy helper scripts

    A shallow embedding of the three scripts of the repository,

    - [w1m_noise.py]  (module [W1mNoise]):  the photometric noise estimator,
    - [bp_lookup.py]  (module [BpLookup]):  the Gaia BP magnitude resolver,
    - [const_add.py]  (module [ConstAdd]):  the FITS constant-offset tool,

    followed by the properties of each that the specification states
    (modules [W1mNoiseSpec], [BpLookupSpec] and [ConstAddSpec]). *)

From Stdlib Require Import ZArith List Bool Lia Ascii String.
From Stdlib Require Import Floats.
From stdpp Require Import base gmap strings pretty.

Set Warnings "-inexact-float".

(* ===================================================================== *)
(** * The noise estimator, [w1m_noise.py]                              *)
(* ===================================================================== *)

(** The values of Python's [float] and of NumPy's [float64] are IEEE 754
    binary64 numbers; they are modelled by Rocq's primitive floats, whose
    [+], [-], [*], [/], [sqrt] and comparisons are the correctly rounded
    binary64 operations.  The two transcendental functions the module
    calls, C's [pow] and [exp], are not fixed bit for bit by any
    standard: they are a parameter ([libm]) of the model.

    The two kinds of number differ in what their operations do besides
    computing a value: a power of Python floats that overflows raises
    [OverflowError], and an operation of NumPy that overflows, divides by
    zero or is invalid issues a [RuntimeWarning].  [get_aperture_noise]
    is the value of a call whose arguments are Python floats (or ints
    that floats represent exactly), [get_aperture_noise_warned] is the
    call with the warnings it issues, for a magnitude of either kind, and
    [get_aperture_noise_call] runs it in the interpreter. *)
Module W1mNoise.

Local Open Scope float_scope.

(** ** Module-level constants (lines 3-21) *)

Definition plate_scale : float := 0.778.
Definition gain : float := 1.055.
Definition read_noise_electrons : float := 12.96.
Definition dark_current : float := 0.0243.

Definition low_sky_background : float := 16.
Definition med_sky_background : float := 100.
Definition high_sky_background : float := 300.

Definition telescope_aperture : float := 1.
Definition scale_height : float := 8000.
Definition C_Y : float := 1.3.
Definition h_obs : float := 2396.

Definition twenty_px_zp : float := 24.3.
Definition ten_px_zp : float := 24.
Definition five_px_zp : float := 23.7.

Definition read_out_time : float := 0.993.

(** The conversion of a Python [int] to a [float] (round to nearest). *)
Definition float_of_int (n : Z) : float :=
  SF2Prim (binary_normalize prec emax n 0 false).

(** [np.pi] *)
Definition np_pi : float := 3.141592653589793.

(** ** The C library *)

(** [pow x y] is the value C's [pow] returns and [pow_erange x y] tells
    whether that call leaves [errno = ERANGE]; [exp] is C's [exp]. *)
Record libm : Type := Libm {
  pow : float -> float -> float;
  pow_erange : float -> float -> bool;
  exp : float -> float
}.

(** ** Results of Python expressions *)

Inductive exn : Type := OverflowError.

Inductive outcome (A : Type) : Type :=
| Return (v : A)
| Raise (e : exn).
Arguments Return {A} v.
Arguments Raise {A} e.

#[export] Instance outcome_ret : MRet outcome := fun _ v => Return v.
#[export] Instance outcome_bind : MBind outcome := fun _ _ k m =>
  match m with
  | Return v => k v
  | Raise e => Raise e
  end.

(** ** NumPy's floating-point warnings *)

(** After each of its operations NumPy looks at the floating-point
    exceptions the operation raised.  In its default error state it
    warns about a division by zero, an overflow and an invalid
    operation, and ignores an underflow. *)
Inductive fp_error : Type := DivideByZero | Overflow | Invalid.

Inductive np_operation : Type :=
| Sqrt | Exp | Power | Add | Subtract | Multiply | Divide.

(** A [RuntimeWarning], say "invalid value encountered in sqrt", and the
    line of [w1m_noise.py] at which the statement that raised it
    starts. *)
Record warning : Type := Warning {
  lineno : nat;
  error : fp_error;
  operation : np_operation
}.

#[export] Instance fp_error_eq_dec : EqDecision fp_error.
Proof. solve_decision. Defined.
#[export] Instance np_operation_eq_dec : EqDecision np_operation.
Proof. solve_decision. Defined.
#[export] Instance warning_eq_dec : EqDecision warning.
Proof. solve_decision. Defined.

(** The exception an IEEE 754 operation raises, if it raises one of the
    three (NaNs are quiet). *)
Definition sqrt_error (x : float) : option fp_error :=
  if x <? 0 then Some Invalid else None.

Definition add_error (x y : float) : option fp_error :=
  if is_infinity x && is_infinity y && negb (x =? y) then Some Invalid
  else if is_finite x && is_finite y && is_infinity (x + y) then Some Overflow
  else None.

Definition subtract_error (x y : float) : option fp_error :=
  if is_infinity x && is_infinity y && (x =? y) then Some Invalid
  else if is_finite x && is_finite y && is_infinity (x - y) then Some Overflow
  else None.

Definition multiply_error (x y : float) : option fp_error :=
  if (is_zero x && is_infinity y) || (is_infinity x && is_zero y) then Some Invalid
  else if is_finite x && is_finite y && is_infinity (x * y) then Some Overflow
  else None.

Definition divide_error (x y : float) : option fp_error :=
  if (is_zero x && is_zero y) || (is_infinity x && is_infinity y) then Some Invalid
  else if is_finite x && is_zero y then Some DivideByZero
  else if is_finite x && is_finite y && is_infinity (x / y) then Some Overflow
  else None.

(** The exception a call of the C library raises, read off its arguments
    and its value as Annex F of the C standard has it: finite arguments
    and an infinite value are an overflow (a division by zero for a
    power of zero), finite arguments and a NaN an invalid operation. *)
Definition power_error (x y r : float) : option fp_error :=
  if is_finite x && is_finite y then
    if is_infinity r then Some (if is_zero x then DivideByZero else Overflow)
    else if is_nan r then Some Invalid
    else None
  else None.

Definition exp_error (x r : float) : option fp_error :=
  if is_finite x then
    if is_infinity r then Some Overflow
    else if is_nan r then Some Invalid
    else None
  else None.

(** A computation with the warnings it issues, in order, and its
    result.  A computation that raises stops there. *)
Record traced (A : Type) : Type := Traced {
  warnings : list warning;
  result : outcome A
}.
Arguments Traced {A} warnings result.
Arguments warnings {A} t.
Arguments result {A} t.

#[export] Instance traced_ret : MRet traced := fun _ v => Traced [] (Return v).
#[export] Instance traced_bind : MBind traced := fun _ _ k m =>
  match result m with
  | Return v => let rest := k v in Traced (warnings m ++ warnings rest) (result rest)
  | Raise e => Traced (warnings m) (Raise e)
  end.

(** An operation on Python floats: it issues no warning. *)
Definition python {A : Type} (r : outcome A) : traced A := Traced [] r.

(** An operation of NumPy: it returns its value, with a warning when it
    raised an exception. *)
Definition np (line : nat) (op : np_operation) (e : option fp_error) (v : float)
    : traced float :=
  Traced (match e with
          | Some err => [Warning line err op]
          | None => []
          end) (Return v).

Definition add_at (line : nat) (x y : float) : traced float :=
  np line Add (add_error x y) (x + y).
Definition subtract_at (line : nat) (x y : float) : traced float :=
  np line Subtract (subtract_error x y) (x - y).
Definition multiply_at (line : nat) (x y : float) : traced float :=
  np line Multiply (multiply_error x y) (x * y).
Definition divide_at (line : nat) (x y : float) : traced float :=
  np line Divide (divide_error x y) (x / y).

(** The kind of number the magnitude is. *)
Inductive number : Type := PyFloat | NpFloat64.

(** The part of the interpreter's state a warning touches: the text on
    [sys.stderr] and the module's [__warningregistry__].  With the
    default filters a [RuntimeWarning] is shown the first time it occurs
    at a line and recorded; the next time it is dropped
    ([warnings.warn_explicit]). *)
Record interpreter : Type := Interpreter {
  stderr : list warning;
  warningregistry : list warning
}.

Definition warn_explicit (x : warning) (s : interpreter) : interpreter :=
  if bool_decide (x ∈ warningregistry s) then s
  else Interpreter (stderr s ++ [x]) (x :: warningregistry s).

Definition issue (xs : list warning) (s : interpreter) : interpreter :=
  fold_left (fun s x => warn_explicit x s) xs s.

Section Estimator.

Variable L : libm.

(** [x ** y] on Python floats (CPython's [float_pow]) for a base [iv] that
    is finite and strictly positive, the only bases this module raises to
    a power (10, 1.3, 0.778 and 1): the special cases are settled before
    the C library is called, and a result out of range is an
    [OverflowError]. *)
Definition py_pow (iv iw : float) : outcome float :=
  if iw =? 0 then Return 1
  else if is_nan iw then Return (if iv =? 1 then 1 else iw)
  else if is_infinity iw then
    if iv =? 1 then Return 1
    else if Bool.eqb (0 <? iw) (1 <? iv) then Return (PrimFloat.abs iw)
    else Return 0
  else if iv =? 1 then Return 1
  else
    let ix := pow L iv iw in
    if is_infinity ix then Raise OverflowError
    else if pow_erange L iv iw && negb (ix =? 0) then Raise OverflowError
    else Return ix.

(** [x ** y] on NumPy [float64] scalars: the C library's value, with no
    exception (NumPy only warns). *)
Definition np_pow (x y : float) : float := pow L x y.

Definition np_sqrt (x : float) : float := PrimFloat.sqrt x.
Definition np_exp (x : float) : float := exp L x.

(** ** [get_aperture_noise] (lines 24-54) *)

(** Lines 25-33: the aperture radius (pixels) and its zero point. *)
Definition select_aperture (bp_mag : float) : Z * float :=
  if bp_mag <? 14 then (20%Z, twenty_px_zp)
  else if bp_mag <? 18 then (10%Z, ten_px_zp)
  else (5%Z, five_px_zp).

(** Lines 35-40: the sky background rate. *)
Definition select_sky_background (moon_percentage : float) : float :=
  if moon_percentage <? 25 then low_sky_background
  else if moon_percentage <? 75 then med_sky_background
  else high_sky_background.

(** Lines 42-54, for the aperture, zero point and sky background chosen
    above, in a call whose arguments are Python floats: the power of
    line 45 is then CPython's.  [aperture_size ** 2] is integer
    arithmetic. *)
Definition noise_budget (aperture_size : Z) (zp sky_background : float)
    (mean_cube_airmass bp_mag exposure_time : float) : outcome float :=
  let n_pixels := np_pi * float_of_int (aperture_size ^ 2) in
  let read_noise := read_noise_electrons * np_sqrt n_pixels in
  let dark_noise := np_sqrt (dark_current * exposure_time * n_pixels) in
  p ← py_pow 10 ((zp - bp_mag) / 2.5);
  let signal := p * exposure_time in
  let poisson_shot_noise := np_sqrt signal in
  ps2 ← py_pow plate_scale 2;
  let sky_background_noise :=
    np_sqrt (sky_background * ps2 * n_pixels * exposure_time) in
  cy2 ← py_pow C_Y 2;
  ta ← py_pow telescope_aperture (-4 / 3);
  let scintillation_noise :=
    np_sqrt (1e-5 * cy2 * ta * mean_cube_airmass
             * np_exp (-2 * h_obs / scale_height) / exposure_time) * signal in
  let total_noise :=
    np_sqrt (np_pow read_noise 2 + np_pow dark_noise 2
             + np_pow poisson_shot_noise 2 + np_pow sky_background_noise 2
             + np_pow scintillation_noise 2) in
  let total_hour_noise_ppm :=
    (total_noise / signal) * np_sqrt ((exposure_time + read_out_time) / 3600) * 1e6 in
  Return total_hour_noise_ppm.

Definition get_aperture_noise
    (moon_percentage mean_cube_airmass bp_mag exposure_time : float) : outcome float :=
  let '(aperture_size, zp) := select_aperture bp_mag in
  let sky_background := select_sky_background moon_percentage in
  noise_budget aperture_size zp sky_background mean_cube_airmass bp_mag exposure_time.

(** ** The call with its warnings *)

(** The body again, operation by operation in the order Python
    evaluates them, with the warnings the operations of NumPy issue.
    The operations on Python floats issue none.  The moon illumination,
    the airmass and the exposure time are Python floats; when the
    magnitude is a NumPy [float64], line 45 is NumPy arithmetic as well:
    its power raises nothing. *)
Definition sqrt_at (line : nat) (x : float) : traced float :=
  np line Sqrt (sqrt_error x) (np_sqrt x).

Definition exp_at (line : nat) (x : float) : traced float :=
  np line Exp (exp_error x (np_exp x)) (np_exp x).

Definition power_at (line : nat) (x y : float) : traced float :=
  np line Power (power_error x y (np_pow x y)) (np_pow x y).

Definition signal_of (kind : number) (zp bp_mag exposure_time : float) : traced float :=
  match kind with
  | PyFloat =>
      p ← python (py_pow 10 ((zp - bp_mag) / 2.5));
      mret (p * exposure_time)
  | NpFloat64 =>
      d ← subtract_at 45 zp bp_mag;
      y ← divide_at 45 d 2.5;
      p ← power_at 45 10 y;
      multiply_at 45 p exposure_time
  end.

Definition noise_budget_warned (kind : number)
    (aperture_size : Z) (zp sky_background : float)
    (mean_cube_airmass bp_mag exposure_time : float) : traced float :=
  let n_pixels := np_pi * float_of_int (aperture_size ^ 2) in
  sqrt_n ← sqrt_at 43 n_pixels;
  read_noise ← multiply_at 43 read_noise_electrons sqrt_n;
  dark_noise ← sqrt_at 44 (dark_current * exposure_time * n_pixels);
  signal ← signal_of kind zp bp_mag exposure_time;
  poisson_shot_noise ← sqrt_at 46 signal;
  ps2 ← python (py_pow plate_scale 2);
  sky_background_noise ←
    sqrt_at 47 (sky_background * ps2 * n_pixels * exposure_time);
  cy2 ← python (py_pow C_Y 2);
  ta ← python (py_pow telescope_aperture (-4 / 3));
  e ← exp_at 48 (-2 * h_obs / scale_height);
  product ← multiply_at 48 (1e-5 * cy2 * ta * mean_cube_airmass) e;
  quotient ← divide_at 48 product exposure_time;
  root ← sqrt_at 48 quotient;
  scintillation_noise ← multiply_at 48 root signal;
  read2 ← power_at 51 read_noise 2;
  dark2 ← power_at 51 dark_noise 2;
  sum2 ← add_at 51 read2 dark2;
  poisson2 ← power_at 51 poisson_shot_noise 2;
  sum3 ← add_at 51 sum2 poisson2;
  sky2 ← power_at 51 sky_background_noise 2;
  sum4 ← add_at 51 sum3 sky2;
  scintillation2 ← power_at 51 scintillation_noise 2;
  sum5 ← add_at 51 sum4 scintillation2;
  total_noise ← sqrt_at 51 sum5;
  ratio ← divide_at 53 total_noise signal;
  hours ← sqrt_at 53 ((exposure_time + read_out_time) / 3600);
  scaled ← multiply_at 53 ratio hours;
  multiply_at 53 scaled 1e6.

Definition get_aperture_noise_warned (kind : number)
    (moon_percentage mean_cube_airmass bp_mag exposure_time : float) : traced float :=
  let '(aperture_size, zp) := select_aperture bp_mag in
  let sky_background := select_sky_background moon_percentage in
  noise_budget_warned kind aperture_size zp sky_background
    mean_cube_airmass bp_mag exposure_time.

(** A call in the interpreter: [exposure_time] left out ([None]) is 30
    (line 24); the warnings are issued, and the call returns or
    raises. *)
Definition get_aperture_noise_call (kind : number)
    (moon_percentage mean_cube_airmass bp_mag : float)
    (exposure_time : option float) : interpreter -> interpreter * outcome float :=
  fun s =>
    let call := get_aperture_noise_warned kind moon_percentage mean_cube_airmass
                  bp_mag (default 30 exposure_time) in
    (issue (warnings call) s, result call).

End Estimator.

(** A stand-in C library to run the model on examples: it squares
    exactly and knows nothing else. *)
Definition squaring_libm : libm :=
  {| pow := fun x y => if y =? 2 then x * x else 1;
     pow_erange := fun _ _ => false;
     exp := fun _ => 1 |}.

(** A stand-in C library with the values the GNU C library returns at
    the calls of [get_aperture_noise(10, 1.2, 12, 30)]: a square is the
    correctly rounded product, 10 to the power 4.92 is
    83176.37711026709 and e to the power -0.599 is 0.54936072222743. *)
Definition sample_libm : libm :=
  {| pow := fun x y => if y =? 2 then x * x else 83176.37711026709;
     pow_erange := fun _ _ => false;
     exp := fun _ => 0.54936072222743 |}.

(** A stand-in C library whose [pow] overflows on every exponent but 2. *)
Definition overflowing_libm : libm :=
  {| pow := fun x y => if y =? 2 then x * x else infinity;
     pow_erange := fun _ y => negb (y =? 2);
     exp := fun _ => 1 |}.

(** ** Range of a result *)

(** The result is a strictly positive finite number. *)
Definition positive_finite (r : outcome float) : bool :=
  match r with
  | Return v => (0 <? v) && (v <? infinity)
  | Raise _ => false
  end.

(** The sign bit is clear, or the value is a NaN: the value is [+0], a
    positive number, [+infinity] or not a number. *)
Definition sign_clear (x : spec_float) : bool :=
  match x with
  | S754_zero s | S754_infinity s | S754_finite s _ _ => negb s
  | S754_nan => true
  end.

Definition not_negative (v : float) : bool := sign_clear (Prim2SF v).

(** The C library's [pow x y] is in range: CPython's [x ** y] does not
    take it for an overflow. *)
Definition pow_in_range (L : libm) (x y : float) : bool :=
  negb (is_infinity (pow L x y))
  && negb (pow_erange L x y && negb (pow L x y =? 0)).

End W1mNoise.

(* ===================================================================== *)
(** * The magnitude resolver, [bp_lookup.py]                           *)
(* ===================================================================== *)

(** Python strings are modelled by [string], read as sequences of code
    points below 256.  The two remote services (SIMBAD name resolution and
    the Gaia archive) are parameters of the model: what each one prints
    and what it returns or raises is theirs to decide.  The interpreter
    state the resolver touches -- the binding of [sys.stdout], the text
    that reached the terminal and the requests sent over the network -- is
    threaded explicitly. *)
Module BpLookup.

Local Open Scope string_scope.

(** ** Python string operations *)

(** [s.find(sub)]: the index of the first occurrence, if any. *)
Fixpoint find (sub s : string) : option nat :=
  if String.prefix sub s then Some 0
  else match s with
       | EmptyString => None
       | String _ s' => option_map S (find sub s')
       end.

(** [sub in s] *)
Definition contains (sub s : string) : bool :=
  match find sub s with Some _ => true | None => false end.

(** [s[:n]] and [s[n:]] *)
Fixpoint take (n : nat) (s : string) : string :=
  match n, s with
  | S n', String c s' => String c (take n' s')
  | _, _ => EmptyString
  end.

Fixpoint drop (n : nat) (s : string) : string :=
  match n, s with
  | S n', String _ s' => drop n' s'
  | _, _ => s
  end.

(** [s.split(sep)] for a separator that is not empty: cut at each
    occurrence found from left to right, the search resuming after the
    occurrence.  [fuel] bounds the number of cuts. *)
Fixpoint split_fuel (fuel : nat) (sep s : string) : list string :=
  match fuel with
  | O => [s]
  | S fuel' =>
      match find sep s with
      | None => [s]
      | Some i => take i s :: split_fuel fuel' sep (drop (i + String.length sep) s)
      end
  end.

Definition split (sep s : string) : list string :=
  split_fuel (String.length s) sep s.

(** [s.replace(c, "")] for a one-character [c] *)
Fixpoint remove_char (c : ascii) (s : string) : string :=
  match s with
  | EmptyString => EmptyString
  | String d s' =>
      if Ascii.eqb c d then remove_char c s' else String d (remove_char c s')
  end.

(** [str.isspace] on one code point below 256 *)
Definition is_space (c : ascii) : bool :=
  let n := nat_of_ascii c in
  (((9 <=? n) && (n <=? 13)) || ((28 <=? n) && (n <=? 32))
   || (n =? 133) || (n =? 160))%nat.

Fixpoint lstrip (s : string) : string :=
  match s with
  | String c s' => if is_space c then lstrip s' else s
  | EmptyString => EmptyString
  end.

Fixpoint rstrip (s : string) : string :=
  match s with
  | EmptyString => EmptyString
  | String c s' =>
      match rstrip s' with
      | EmptyString => if is_space c then EmptyString else String c EmptyString
      | r => String c r
      end
  end.

(** [s.strip()] *)
Definition strip (s : string) : string := rstrip (lstrip s).

Definition newline : ascii := ascii_of_nat 10.
Definition nl : string := String newline EmptyString.

(** ** Exceptions, the interpreter state and the services *)

(** The exceptions of the model are instances of Python's [Exception]:
    the three the resolver's own subscripts raise, and whatever a service
    client raises (a network failure, an HTTP error, a parse error). *)
Inductive exn : Type :=
| TypeError
| KeyError
| IndexError
| ServiceError (what : string).

(** What [sys.stdout] is bound to. *)
Inductive stream : Type := Terminal | Devnull.

Inductive request : Type :=
| NameQuery (target : string)
| CatalogQuery (query : string)
| StatusQuery.

Record world : Type := World {
  stdout : stream;
  console : list string;
  network : list request
}.

(** A computation: it transforms the state and returns or raises. *)
Definition M (A : Type) : Type := world -> world * (exn + A).

#[export] Instance M_ret : MRet M := fun _ v w => (w, inr v).
#[export] Instance M_bind : MBind M := fun _ _ k m w =>
  match m w with
  | (w', inr v) => k v w'
  | (w', inl e) => (w', inl e)
  end.

Definition raise {A : Type} (e : exn) : M A := fun w => (w, inl e).

(** [try: body / except Exception: handler] *)
Definition try_except {A : Type} (body : M A) (handler : exn -> M A) : M A :=
  fun w =>
    match body w with
    | (w', inr v) => (w', inr v)
    | (w', inl e) => handler e w'
    end.

(** [print] from inside a service client: the text goes where
    [sys.stdout] points at that moment. *)
Definition emit (lines : list string) : M unit := fun w =>
  match stdout w with
  | Terminal => (World (stdout w) (console w ++ lines) (network w), inr tt)
  | Devnull => (w, inr tt)
  end.

Definition send (r : request) : M unit := fun w =>
  (World (stdout w) (console w) (network w ++ [r]), inr tt).

(** What a service does with one request: the diagnostics it prints, and
    the value it returns or the exception it raises. *)
Record reply (A : Type) : Type := Reply {
  printed : list string;
  answer : exn + A
}.
Arguments Reply {A} printed answer.
Arguments printed {A} r.
Arguments answer {A} r.

(** The value of [custom_simbad.query_object(target)]: [None], or a table
    whose ['ids'] column, when it has one, prints as the given text
    ([str(result['ids'])]). *)
Inductive simbad_result : Type :=
| SimbadNone
| SimbadTable (ids : option string).

(** The value of [job.get_results()]: a table whose ['phot_bp_mean_mag']
    column, when it has one, holds the given rows. *)
Inductive gaia_result : Type :=
| GaiaTable (phot_bp_mean_mag : option (list float)).

(** ** The resolver (lines 13-65) *)

Section Resolver.

Variable simbad : string -> reply simbad_result.
Variable gaia : string -> reply gaia_result.

(** The catalog-native marker. *)
Definition marker : string := "Gaia DR3".

(** Lines 31-37: the name resolution request.  The client is set up and
    called under whatever [sys.stdout] is bound to. *)
Definition query_object (target : string) : M simbad_result :=
  _ ← send (NameQuery target);
  _ ← emit (printed (simbad target));
  match answer (simbad target) with
  | inl e => raise e
  | inr r => mret r
  end.

(** Lines 60-61: [Gaia.launch_job_async(query)] and [job.get_results()]. *)
Definition launch_job_async (query : string) : M gaia_result :=
  _ ← send (CatalogQuery query);
  _ ← emit (printed (gaia query));
  match answer (gaia query) with
  | inl e => raise e
  | inr r => mret r
  end.

(** Lines 13-21: [sys.stdout] is bound to the null device while [body]
    runs and bound back to what it was when [body] returns or raises
    (the [finally] clause).  Opening the null device is taken to succeed. *)
Definition suppress_stdout {A : Type} (body : M A) : M A := fun w =>
  let old_stdout := stdout w in
  let '(w', r) := body (World Devnull (console w) (network w)) in
  (World old_stdout (console w') (network w'), r).

(** [result['ids']] rendered by [str]. *)
Definition str_ids (result : simbad_result) : M string :=
  match result with
  | SimbadNone => raise TypeError
  | SimbadTable None => raise KeyError
  | SimbadTable (Some text) => mret text
  end.

(** [result['phot_bp_mean_mag']] *)
Definition phot_bp_mean_mag (result : gaia_result) : M (list float) :=
  match result with
  | GaiaTable None => raise KeyError
  | GaiaTable (Some rows) => mret rows
  end.

(** [l[i]] *)
Definition item {A : Type} (l : list A) (i : nat) : M A :=
  match nth_error l i with
  | Some x => mret x
  | None => raise IndexError
  end.

(** [s.split("Gaia DR3")[1].strip()] (lines 46 and 50) *)
Definition after_marker (s : string) : M string :=
  piece ← item (split marker s) 1;
  mret (strip piece).

(** Lines 41-47: the first entry that holds the marker gives the id; with
    no such entry [gaia_id] stays [None]. *)
Fixpoint scan_ids (ids : list string) : M (option string) :=
  match ids with
  | [] => mret None
  | id :: rest =>
      if contains marker id then
        gaia_id ← after_marker id;
        mret (Some gaia_id)
      else scan_ids rest
  end.

(** Line 38: the entries of the alternate-identifier text. *)
Definition parse_ids (text : string) : list string :=
  split "|" (remove_char "-" (remove_char newline text)).

(** Lines 29-50: the value of [gaia_id] when line 52 is reached. *)
Definition resolve_gaia_id (target : string) : M (option string) :=
  if negb (contains marker target) then
    result ← query_object target;
    text ← str_ids result;
    scan_ids (parse_ids text)
  else
    gaia_id ← after_marker target;
    mret (Some gaia_id).

(** [{gaia_id}] inside the f-string. *)
Definition format_id (gaia_id : option string) : string :=
  match gaia_id with
  | Some s => s
  | None => "None"
  end.

(** Lines 53-57 *)
Definition build_query (gaia_id : option string) : string :=
  nl +:+ "        SELECT source_id, phot_bp_mean_mag"
  +:+ nl +:+ "        FROM gaiadr3.gaia_source"
  +:+ nl +:+ "        WHERE source_id = " +:+ format_id gaia_id
  +:+ nl +:+ "        ".

(** Lines 52-63 *)
Definition lookup_bp_mag (gaia_id : option string) : M float :=
  let query := build_query gaia_id in
  result ← suppress_stdout (launch_job_async query);
  rows ← phot_bp_mean_mag result;
  item rows 0.

(** Lines 27-65 *)
Definition get_bp_mag (target : string) : M (option float) :=
  try_except
    (gaia_id ← resolve_gaia_id target;
     bp_mag ← lookup_bp_mag gaia_id;
     mret (Some bp_mag))
    (fun _ => mret None).

End Resolver.

(** ** Sample services and states *)

Definition fresh : world := World Terminal [] [].

(** A name service that knows one object, with a Gaia entry, and prints a
    line for every request. *)
Definition chatty_simbad (target : string) : reply simbad_result :=
  Reply ["simbad: resolving " +:+ target]
    (if String.eqb target "Vega"
     then inr (SimbadTable (Some ("ids" +:+ nl +:+ "---" +:+ nl
                                  +:+ "* alf Lyr|Gaia DR3 2095947430657671296|HD 172167")))
     else inr SimbadNone).

(** A name service whose object has no Gaia entry. *)
Definition simbad_without_gaia (target : string) : reply simbad_result :=
  Reply [] (inr (SimbadTable (Some ("ids" +:+ nl +:+ "---" +:+ nl
                                    +:+ "HD 1|HIP 422|TYC 4294-845-1")))).

(** A catalog service that answers every query with one row, and prints
    a progress line. *)
Definition one_row_gaia (query : string) : reply gaia_result :=
  Reply ["INFO: Query finished."] (inr (GaiaTable (Some [0.03%float]))).

(** A catalog service that is down. *)
Definition failing_gaia (query : string) : reply gaia_result :=
  Reply ["INFO: retrying"] (inl (ServiceError "HTTP 500")).

(** A catalog service that finds no row. *)
Definition empty_gaia (query : string) : reply gaia_result :=
  Reply [] (inr (GaiaTable (Some []))).

(** ** The specification's reading of the fast path *)

(** [s] up to the first occurrence of [sep]; all of [s] when there is none. *)
Definition upto (sep s : string) : string :=
  match find sep s with
  | Some j => take j s
  | None => s
  end.

(** What follows the first occurrence of [sep] in [s]. *)
Definition rest_after (sep s : string) : string :=
  match find sep s with
  | Some i => drop (i + String.length sep) s
  | None => EmptyString
  end.

(** "The substring exactly after the marker, trimmed of surrounding
    whitespace". *)
Definition spec_catalog_id (target : string) : string :=
  strip (rest_after marker target).

(** The magnitude a catalog answer gives: its first row, when it has one. *)
Definition first_row (a : exn + gaia_result) : option float :=
  match a with
  | inr (GaiaTable (Some (v :: _))) => Some v
  | _ => None
  end.

(** ** The effect of each step, in closed form *)

(** The id a list of entries gives: that of its first entry with the
    marker. *)
Definition scanned (ids : list string) : option string :=
  match List.find (contains marker) ids with
  | Some id => Some (strip (upto marker (rest_after marker id)))
  | None => None
  end.

(** The value [gaia_id] has at line 52 after a name resolution. *)
Definition resolved (a : exn + simbad_result) : exn + option string :=
  match a with
  | inl e => inl e
  | inr SimbadNone => inl TypeError
  | inr (SimbadTable None) => inl KeyError
  | inr (SimbadTable (Some text)) => inr (scanned (parse_ids text))
  end.

(** What lines 62-63 make of the catalog's answer. *)
Definition picked (a : exn + gaia_result) : exn + float :=
  match a with
  | inl e => inl e
  | inr (GaiaTable None) => inl KeyError
  | inr (GaiaTable (Some [])) => inl IndexError
  | inr (GaiaTable (Some (v :: _))) => inr v
  end.

(** The state after the name resolution request. *)
Definition after_name_query (simbad : string -> reply simbad_result)
    (target : string) (w : world) : world :=
  World (stdout w)
        (console w ++ match stdout w with
                      | Terminal => printed (simbad target)
                      | Devnull => []
                      end)
        (network w ++ [NameQuery target]).

(** The state after the catalog request. *)
Definition after_catalog_query (query : string) (w : world) : world :=
  World (stdout w) (console w) (network w ++ [CatalogQuery query]).

(** ** Further string operations and the module's import *)

(** [sep.join(l)] *)
Fixpoint join (sep : string) (l : list string) : string :=
  match l with
  | [] => EmptyString
  | x :: rest =>
      match rest with
      | [] => x
      | _ => x +:+ sep +:+ join sep rest
      end
  end.

(** Every character of [s] satisfies [P]. *)
Fixpoint string_forall (P : ascii -> bool) (s : string) : bool :=
  match s with
  | EmptyString => true
  | String c s' => P c && string_forall P s'
  end.

(** A character that is none of the three line 38 removes or cuts at. *)
Definition separator_free (c : ascii) : bool :=
  negb (Ascii.eqb newline c) && negb (Ascii.eqb "-" c) && negb (Ascii.eqb "|" c).

(** A character other than [c]. *)
Definition is_not (c : ascii) : ascii -> bool := fun d => negb (Ascii.eqb c d).

(** A string that does not start with whitespace. *)
Definition no_leading_space (s : string) : bool :=
  match s with
  | EmptyString => true
  | String c _ => negb (is_space c)
  end.

(** Lines 23-24: [from astroquery.gaia import Gaia] under
    [suppress_stdout()].  The import builds the archive client, which
    may ask the archive for its status messages and print them, or print
    that it could not get them: [asked] is what the import sends,
    [client] what it prints and whether it fails. *)
Fixpoint send_all (asked : list request) : M unit :=
  match asked with
  | [] => mret tt
  | r :: rest => _ ← send r; send_all rest
  end.

Definition import_gaia (asked : list request) (client : reply unit) : M unit :=
  suppress_stdout
    (_ ← send_all asked;
     _ ← emit (printed client);
     match answer client with
     | inl e => raise e
     | inr _ => mret tt
     end).

(** An import with no network: the status request goes out, the client
    prints that it got no answer, and the import succeeds. *)
Definition offline_import : reply unit :=
  Reply ["Status messages could not be retrieved"] (inr tt).

End BpLookup.

(* ===================================================================== *)
(** * The image offset tool, [const_add.py]                            *)
(* ===================================================================== *)

(** The script runs against a file system (a finite map from paths to
    FITS files), a heap of NumPy arrays and the terminal.  The FITS
    library is modelled as far as the script uses it: [fits.open] in its
    default read-only mode gives the primary header and a private
    in-memory copy of the primary array, or fails; [PrimaryHDU] does not
    keep the header it is given but builds one, with structural cards of
    its own, from it; [writeto] stores a file with that one HDU, or
    fails.  The images are 2-D arrays of an element type FITS stores as
    it is ([Dtype]); what [+=] does to one element is that type's
    business. *)
Module ConstAdd.

Local Open Scope string_scope.

(** ** Paths ([path.Path], POSIX) *)

Definition slash : ascii := "/"%char.

(** [s.rfind('/')] *)
Fixpoint rfind_slash (s : string) : option nat :=
  match s with
  | EmptyString => None
  | String c s' =>
      match rfind_slash s' with
      | Some i => Some (S i)
      | None => if Ascii.eqb c slash then Some 0 else None
      end
  end.

Fixpoint all_slashes (s : string) : bool :=
  match s with
  | EmptyString => true
  | String c s' => Ascii.eqb c slash && all_slashes s'
  end.

(** [s.rstrip('/')] *)
Fixpoint rstrip_slashes (s : string) : string :=
  match s with
  | EmptyString => EmptyString
  | String c s' =>
      match rstrip_slashes s' with
      | EmptyString => if Ascii.eqb c slash then EmptyString else String c EmptyString
      | r => String c r
      end
  end.

(** [Path.parent], that is [posixpath.dirname] *)
Definition parent (p : string) : string :=
  let head := match rfind_slash p with
              | Some i => BpLookup.take (S i) p
              | None => EmptyString
              end in
  if all_slashes head then head else rstrip_slashes head.

(** [a / b], that is [posixpath.join(a, b)] *)
Definition joinpath (a b : string) : string :=
  if String.prefix "/" b then b
  else if String.eqb a "" then b
  else if String.eqb (BpLookup.drop (String.length a - 1) a) "/" then a +:+ b
  else a +:+ "/" +:+ b.

(** Line 5 *)
Definition input_path : string := "/Users/nagro/Documents/median.fits".

(** Line 15 *)
Definition output_path : string := joinpath (parent input_path) "const_added.fits".

(** ** Arrays, files and the state *)

(** An element type of a NumPy array that FITS stores as it is: its
    in-place addition of a Python integer and its BITPIX value.  (The
    integer types FITS stores shifted by BZERO -- int8, uint16, uint32,
    uint64 -- are not among them.) *)
Class Dtype (pixel : Type) : Type := {
  iadd : pixel -> Z -> pixel;
  bitpix : Z
}.

(** 16-bit signed integers (BITPIX = 16): addition wraps around. *)
Definition wrap16 (n : Z) : Z := ((n + 32768) mod 65536 - 32768)%Z.
#[export] Instance int16 : Dtype Z :=
  {| iadd := fun x k => wrap16 (x + k); bitpix := 16 |}.

(** The signed integers of 16, 32 and 64 bits (BITPIX = [bits]) and the
    unsigned ones of 8 bits (BITPIX = 8). *)
Definition wrap (bits : Z) (n : Z) : Z :=
  ((n + 2 ^ (bits - 1)) mod 2 ^ bits - 2 ^ (bits - 1))%Z.

Definition in_range (bits : Z) (n : Z) : Prop :=
  (- 2 ^ (bits - 1) <= n < 2 ^ (bits - 1))%Z.

Definition int_dtype (bits : Z) : Dtype Z :=
  {| iadd := fun x k => wrap bits (x + k); bitpix := bits |}.

Definition uint8 : Dtype Z :=
  {| iadd := fun x k => ((x + k) mod 256)%Z; bitpix := 8 |}.

(** 64-bit floats (BITPIX = -64): the integer is converted and added
    with rounding to nearest. *)
Definition float64 : Dtype float :=
  {| iadd := fun x k => (x + W1mNoise.float_of_int k)%float; bitpix := -64 |}.

(** A header: its cards in order, each with its keyword and its value.
    The comment of a card is left out (on the structural cards the
    library writes comments of its own). *)
Definition header : Type := list (string * string).

(** The keywords that describe the structure of an HDU.  When a header
    is given to [PrimaryHDU] as a template, the library drops these
    cards from it and computes its own from the array. *)
Definition structural_keys : list string :=
  ["SIMPLE"; "XTENSION"; "BITPIX"; "NAXIS"; "NAXIS1"; "NAXIS2"; "EXTEND";
   "PCOUNT"; "GCOUNT"; "GROUPS"; "BSCALE"; "BZERO"; "TFIELDS"].

Definition structural (key : string) : bool :=
  existsb (String.eqb key) structural_keys.

(** The header of a 2-D primary HDU as a FITS file has it: the five
    mandatory cards first, NAXIS being 2, and no structural keyword
    twice. *)
Definition count_key (key : string) (h : header) : nat :=
  List.length (List.filter (fun card => String.eqb (fst card) key) h).

Definition fits_header (h : header) : bool :=
  match h with
  | (k1, _) :: (k2, _) :: (k3, n) :: (k4, _) :: (k5, _) :: _ =>
      String.eqb k1 "SIMPLE" && String.eqb k2 "BITPIX"
      && String.eqb k3 "NAXIS" && String.eqb n "2"
      && String.eqb k4 "NAXIS1" && String.eqb k5 "NAXIS2"
      && forallb (fun key => (count_key key h <=? 1)%nat) structural_keys
  | _ => false
  end.

(** The header without its structural cards ([Header._strip]).  The
    library removes the first card of each structural keyword, NAXISn
    for n up to the value of NAXIS; on a [fits_header] that is every
    structural card. *)
Definition strip_structural (h : header) : header :=
  List.filter (fun card => negb (structural (fst card))) h.

Inductive exn : Type :=
| FileNotFoundError
| OSError
| TypeError.

Section Tool.

Context {pixel : Type} `{Dtype pixel}.

(** A 2-D array, row by row. *)
Definition image : Type := list (list pixel).

(** [A + k], element by element. *)
Definition add_scalar (A : image) (k : Z) : image :=
  List.map (List.map (fun x => iadd x k)) A.

(** The structural cards of a primary HDU that holds the array [A]:
    NAXIS1 counts the pixels of a row and NAXIS2 the rows. *)
Definition primary_cards (A : image) : header :=
  [("SIMPLE", "T"); ("BITPIX", pretty bitpix); ("NAXIS", "2");
   ("NAXIS1", pretty (List.length (List.hd [] A)));
   ("NAXIS2", pretty (List.length A))].

(** The structural cards of a primary HDU that holds no array. *)
Definition empty_cards : header :=
  [("SIMPLE", "T"); ("BITPIX", "8"); ("NAXIS", "0")].

Definition cards_for (data : option image) : header :=
  match data with
  | Some A => primary_cards A
  | None => empty_cards
  end.

(** The header the library builds from the template [h] for an HDU that
    holds [data]: its own structural cards, then the cards of [h] that
    are not structural, in their order. *)
Definition rebuild (h : header) (data : option image) : header :=
  (cards_for data ++ strip_structural h)%list.

(** What [hdulist[0]] gives for a file once its [.data] is read: the
    header, and the array as the library decodes it ([None] when the HDU
    holds none).  For an image stored scaled (BSCALE, BZERO) the library
    decodes the array to floats and rewrites the BITPIX, BSCALE, BZERO
    and BLANK cards of the header in memory; the header is then the
    rewritten one. *)
Record hdu_file : Type := HduFile {
  file_header : header;
  file_data : option image
}.

(** A FITS file: its primary HDU and its extensions. *)
Record fits_file : Type := FitsFile {
  primary : hdu_file;
  extensions : list hdu_file
}.

(** An HDU in memory: its header and a reference to its array. *)
Record hdu : Type := Hdu {
  hdu_header : header;
  hdu_data : option nat
}.

(** The state: the FITS files on disk; the paths that hold something
    that is not a readable FITS container; the paths that cannot be
    written (no permission: a write there fails before anything is
    changed); the arrays in memory; the text on the terminal. *)
Record world : Type := World {
  files : gmap string fits_file;
  invalid : gset string;
  locked : gset string;
  heap : gmap nat image;
  next : nat;
  terminal : list string
}.

Definition M (A : Type) : Type := world -> world * (exn + A).

#[export] Instance M_ret : MRet M := fun _ v w => (w, inr v).
#[export] Instance M_bind : MBind M := fun _ _ k m w =>
  match m w with
  | (w', inr v) => k v w'
  | (w', inl e) => (w', inl e)
  end.

Definition raise {A : Type} (e : exn) : M A := fun w => (w, inl e).

(** [fits.open(path)[0]] with its [.data] read: the primary HDU, its
    array copied to the heap (the default mode is read-only and changes
    to the array stay in memory).  A path that holds no file raises
    [FileNotFoundError], one that holds no readable FITS container
    raises [OSError]. *)
Definition fits_open_primary (path : string) : M hdu := fun w =>
  match files w !! path with
  | None =>
      if bool_decide (path ∈ invalid w) then (w, inl OSError)
      else (w, inl FileNotFoundError)
  | Some f =>
      match file_data (primary f) with
      | None => (w, inr (Hdu (file_header (primary f)) None))
      | Some A =>
          (World (files w) (invalid w) (locked w)
                 (<[next w := A]> (heap w)) (S (next w)) (terminal w),
           inr (Hdu (file_header (primary f)) (Some (next w))))
      end
  end.

(** [data += k]: the array [data] refers to is updated in place. *)
Definition iadd_array (data : option nat) (k : Z) : M unit := fun w =>
  match data with
  | None => (w, inl TypeError)
  | Some l =>
      (World (files w) (invalid w) (locked w)
             (alter (fun A => add_scalar A k) l (heap w)) (next w)
             (terminal w), inr tt)
  end.

(** The array a reference stands for. *)
Definition deref (data : option nat) (w : world) : option image :=
  match data with
  | Some l => heap w !! l
  | None => None
  end.

(** [fits.PrimaryHDU(data, header=header)]: the new HDU shares the
    array; its header is rebuilt from the template. *)
Definition PrimaryHDU (data : option nat) (h : header) : M hdu := fun w =>
  (w, inr (Hdu (rebuild h (deref data w)) data)).

(** [hdu.writeto(path, overwrite=True)]: the structural cards are
    brought up to date with the array -- nothing to do for the header
    [PrimaryHDU] has just built for the same array --, and a file with
    this one HDU replaces whatever the path held.  A path that cannot be
    written raises [OSError]. *)
Definition writeto (h : hdu) (path : string) : M unit := fun w =>
  if bool_decide (path ∈ locked w) then (w, inl OSError)
  else
    let contents := deref (hdu_data h) w in
    (World (<[path := FitsFile (HduFile (rebuild (hdu_header h) contents) contents) []]>
              (files w))
           (invalid w ∖ {[path]}) (locked w)
           (heap w) (next w) (terminal w), inr tt).

Definition print (line : string) : M unit := fun w =>
  (World (files w) (invalid w) (locked w) (heap w) (next w)
         (terminal w ++ [line]), inr tt).

(** ** The script (lines 5-18) *)

Definition const_add : M unit :=
  primary_hdu ← fits_open_primary input_path;
  let data := hdu_data primary_hdu in
  let header := hdu_header primary_hdu in
  _ ← iadd_array data 100;
  hdu ← PrimaryHDU data header;
  _ ← writeto hdu output_path;
  print ("Saved the const added data to " +:+ output_path).

(** The state once the array [A] is read and the offset added. *)
Definition loaded (w : world) (A : image) : world :=
  World (files w) (invalid w) (locked w)
        (alter (fun B => add_scalar B 100) (next w) (<[next w := A]> (heap w)))
        (S (next w)) (terminal w).

(** Reading a file back: its primary header and array. *)
Definition read_back (path : string) (w : world) : option (header * image) :=
  match files w !! path with
  | Some f =>
      match file_data (primary f) with
      | Some A => Some (file_header (primary f), A)
      | None => None
      end
  | None => None
  end.

End Tool.

(** ** Sample states *)

(** A disk that holds the input image, 16-bit, with one stale output. *)
Definition sample_header : header :=
  [("SIMPLE", "T"); ("BITPIX", "16"); ("NAXIS", "2"); ("NAXIS1", "3");
   ("NAXIS2", "2"); ("OBJECT", "median")].
Definition sample_image : list (list Z) := [[0; 1; 2]; [10; 32700; -5]]%Z.
Definition sample_world : world (pixel := Z) :=
  World {[ input_path := FitsFile (HduFile sample_header (Some sample_image)) [];
           output_path := FitsFile (HduFile [] None) [] ]}
        ∅ ∅ ∅ 0 [].

(** A disk whose input image has the header a FITS writer gives a file
    that may have extensions: the structural cards, EXTEND among them,
    and one card of the observer's. *)
Definition extended_header : header :=
  [("SIMPLE", "T"); ("BITPIX", "16"); ("NAXIS", "2"); ("NAXIS1", "3");
   ("NAXIS2", "2"); ("EXTEND", "T"); ("OBJECT", "median")].
Definition extended_world : world (pixel := Z) :=
  World {[ input_path := FitsFile (HduFile extended_header (Some sample_image)) [] ]}
        ∅ ∅ ∅ 0 [].

(** A disk whose input path holds something that is not a FITS file, and
    one whose output path cannot be written. *)
Definition garbage_world : world (pixel := Z) :=
  World ∅ {[ input_path ]} ∅ ∅ 0 [].
Definition locked_world : world (pixel := Z) :=
  World {[ input_path := FitsFile (HduFile sample_header (Some sample_image)) [] ]}
        ∅ {[ output_path ]} ∅ 0 [].

(** ** The output path of any input path *)

(** Line 15 for an input path [p]: [p.parent / "const_added.fits"]. *)
Definition output_path_for (p : string) : string :=
  joinpath (parent p) "const_added.fits".

(** The last character of a string. *)
Fixpoint last_char (s : string) : option ascii :=
  match s with
  | EmptyString => None
  | String c s' =>
      match s' with
      | EmptyString => Some c
      | _ => last_char s'
      end
  end.

End ConstAdd.

(* ===================================================================== *)
(** * Properties of the noise estimator                                *)
(* ===================================================================== *)

Module W1mNoiseSpec.

Import W1mNoise.
Local Open Scope float_scope.

(** ** Facts on binary64 comparisons *)

Lemma SFcompare_antisym (x y : spec_float) :
  SFcompare y x = option_map CompOpp (SFcompare x y).
Proof.
  destruct x as [sx|sx| |sx mx ex], y as [sy|sy| |sy my ey]; simpl;
    try destruct sx; try destruct sy; try reflexivity;
    rewrite (Z.compare_antisym ex ey);
    destruct (ex ?= ey)%Z; simpl; try reflexivity;
    rewrite (Pos.compare_cont_antisym mx my Eq); simpl;
    try rewrite CompOpp_involutive; reflexivity.
Qed.

Lemma leb_true_ltb_false (x y : float) :
  (x <=? y) = true -> (y <? x) = false.
Proof.
  rewrite leb_spec, ltb_spec. unfold SFleb, SFltb.
  rewrite (SFcompare_antisym (Prim2SF x) (Prim2SF y)).
  destruct (SFcompare (Prim2SF x) (Prim2SF y)) as [[ | | ]|]; simpl;
    intros H; try reflexivity; discriminate H.
Qed.

(** 14 < 18, so nothing at or above 18 is below 14. *)
Lemma leb_18_ltb_14_false (m : float) :
  (18 <=? m) = true -> (m <? 14) = false.
Proof.
  rewrite leb_spec, ltb_spec. unfold SFleb, SFltb.
  change (Prim2SF 18) with (S754_finite false 5066549580791808 (-48)).
  change (Prim2SF 14) with (S754_finite false 7881299347898368 (-49)).
  destruct (Prim2SF m) as [s|s| |s mm e]; cbn [SFcompare];
    try destruct s; try reflexivity; try discriminate.
  destruct (Z.compare_spec (-48) e) as [E|E|E]; try discriminate;
    destruct (Z.compare_spec e (-49)) as [F|F|F]; try reflexivity; lia.
Qed.

(** Multiplying by an infinite factor never gives a finite number. *)
Lemma mul_infinity_not_positive_finite (x : float) :
  let r := x * infinity * 1e6 in (0 <? r) && (r <? infinity) = false.
Proof.
  cbv zeta. rewrite !ltb_spec, !mul_spec.
  change (Prim2SF infinity) with (S754_infinity false).
  change (Prim2SF 0) with (S754_zero false).
  destruct (Prim2SF x) as [s|s| |s mm e]; try destruct s;
    cbn [SF64mul SFmul xorb]; vm_compute; reflexivity.
Qed.

(** Neither does a division by zero, whatever it is multiplied by. *)
Lemma div_zero_not_positive_finite (x c : float) :
  let r := x / 0 * c * 1e6 in (0 <? r) && (r <? infinity) = false.
Proof.
  cbv zeta. rewrite !ltb_spec, !mul_spec, div_spec.
  change (Prim2SF infinity) with (S754_infinity false).
  change (Prim2SF 0) with (S754_zero false).
  destruct (Prim2SF x) as [s|s| |s mm e], (Prim2SF c) as [t|t| |t mc ec];
    try destruct s; try destruct t;
    cbn [SF64div SFdiv SF64mul SFmul xorb]; vm_compute; reflexivity.
Qed.

(** ** Properties of the branch selection *)

(** The estimate is the budget of lines 42-54 for the two selections. *)
Lemma get_aperture_noise_selected (L : libm) (moon a m t : float) :
  get_aperture_noise L moon a m t
  = noise_budget L (fst (select_aperture m)) (snd (select_aperture m))
      (select_sky_background moon) a m t.
Proof.
  unfold get_aperture_noise. destruct (select_aperture m) as [ap zp].
  reflexivity.
Qed.

(** C1 (as the code has it): a moon illumination of exactly 25 takes the
    medium sky background, and one of exactly 75 takes the high sky
    background, for every airmass, magnitude and exposure time: the medium
    interval is closed at 25 and open at 75. *)
Theorem moon_boundaries (L : libm) (a m t : float) :
  select_sky_background 25 = med_sky_background
  /\ get_aperture_noise L 25 a m t
     = noise_budget L (fst (select_aperture m)) (snd (select_aperture m))
         med_sky_background a m t
  /\ select_sky_background 75 = high_sky_background
  /\ get_aperture_noise L 75 a m t
     = noise_budget L (fst (select_aperture m)) (snd (select_aperture m))
         high_sky_background a m t.
Proof.
  assert (E25 : select_sky_background 25 = med_sky_background) by reflexivity.
  assert (E75 : select_sky_background 75 = high_sky_background) by reflexivity.
  rewrite <- E25 at 2. rewrite <- E75 at 2.
  repeat split; apply get_aperture_noise_selected.
Qed.

(** C1 as stated fails at 75: the branch taken there is the high sky
    background (300), which is not the medium one (100). *)
Lemma moon_75_is_not_medium :
  select_sky_background 75 = high_sky_background
  /\ (high_sky_background =? med_sky_background) = false
  /\ high_sky_background <> med_sky_background.
Proof.
  split; [reflexivity | split; [reflexivity | ]].
  intros E. apply (f_equal Prim2SF) in E. vm_compute in E. discriminate E.
Qed.

(** C5: the aperture and zero point switch exactly at 14 and at 18.  A
    magnitude strictly below 14 takes the 20 pixel aperture with
    [twenty_px_zp]; 14 itself and every magnitude in [14, 18) take the 10
    pixel aperture with [ten_px_zp]; 18 itself and every magnitude above
    take the 5 pixel aperture with [five_px_zp]. *)
Theorem aperture_boundaries (m : float) :
  ((m <? 14) = true -> select_aperture m = (20%Z, twenty_px_zp))
  /\ select_aperture 14 = (10%Z, ten_px_zp)
  /\ ((14 <=? m) = true -> (m <? 18) = true ->
      select_aperture m = (10%Z, ten_px_zp))
  /\ select_aperture 18 = (5%Z, five_px_zp)
  /\ ((18 <=? m) = true -> select_aperture m = (5%Z, five_px_zp)).
Proof.
  unfold select_aperture. repeat split.
  - intros H. rewrite H. reflexivity.
  - intros H14 H18. rewrite (leb_true_ltb_false _ _ H14), H18. reflexivity.
  - intros H18.
    rewrite (leb_18_ltb_14_false _ H18), (leb_true_ltb_false _ _ H18).
    reflexivity.
Qed.

Lemma aperture_boundaries_witness :
  select_aperture 13.999 = (20%Z, twenty_px_zp)
  /\ select_aperture 17.999 = (10%Z, ten_px_zp)
  /\ select_aperture 18.5 = (5%Z, five_px_zp).
Proof.
  split; [ | split ].
  - apply (proj1 (aperture_boundaries 13.999)). reflexivity.
  - apply (proj1 (proj2 (proj2 (aperture_boundaries 17.999)))); reflexivity.
  - apply (proj2 (proj2 (proj2 (proj2 (aperture_boundaries 18.5))))).
    reflexivity.
Defined.

(** ** Determinism and warnings *)

Lemma warnings_bind {A B : Type} (m : traced A) (k : A -> traced B) :
  warnings (m ≫= k)
  = (warnings m ++ match result m with
                   | Return v => warnings (k v)
                   | Raise _ => []
                   end)%list.
Proof.
  unfold mbind, traced_bind. destruct (result m); cbn [warnings].
  - reflexivity.
  - rewrite List.app_nil_r. reflexivity.
Qed.

Lemma result_bind {A B : Type} (m : traced A) (k : A -> traced B) :
  result (m ≫= k)
  = match result m with
    | Return v => result (k v)
    | Raise e => Raise e
    end.
Proof. unfold mbind, traced_bind. destruct (result m); reflexivity. Qed.

(** The call with its warnings returns what [get_aperture_noise] says. *)
Lemma noise_budget_warned_result (L : libm) (ap : Z) (zp sky a m t : float) :
  result (noise_budget_warned L PyFloat ap zp sky a m t)
  = noise_budget L ap zp sky a m t.
Proof.
  unfold noise_budget_warned, noise_budget, signal_of.
  destruct (py_pow L 10 ((zp - m) / 2.5)) as [p|e]; [ | reflexivity].
  destruct (py_pow L plate_scale 2) as [ps2|e]; [ | reflexivity].
  destruct (py_pow L C_Y 2) as [cy2|e]; [ | reflexivity].
  destruct (py_pow L telescope_aperture (-4 / 3)) as [ta|e]; reflexivity.
Qed.

Lemma get_aperture_noise_warned_result (L : libm) (moon a m t : float) :
  result (get_aperture_noise_warned L PyFloat moon a m t)
  = get_aperture_noise L moon a m t.
Proof.
  unfold get_aperture_noise_warned, get_aperture_noise.
  destruct (select_aperture m) as [ap zp]. apply noise_budget_warned_result.
Qed.

(** What issuing warnings does to the registry and to [sys.stderr]. *)
Lemma issue_cons (x : warning) (xs : list warning) (s : interpreter) :
  issue (x :: xs) s = issue xs (warn_explicit x s).
Proof. reflexivity. Qed.

Lemma issue_registry (xs : list warning) (s : interpreter) (y : warning) :
  y ∈ warningregistry (issue xs s) <-> y ∈ warningregistry s \/ y ∈ xs.
Proof.
  revert s. induction xs as [|x xs IH]; intros s.
  - cbn [issue fold_left]. rewrite elem_of_nil. tauto.
  - rewrite issue_cons, IH, elem_of_cons. unfold warn_explicit.
    destruct (bool_decide (x ∈ warningregistry s)) eqn:K.
    + apply bool_decide_eq_true_1 in K.
      split; [tauto | intros [R|[->|R]]; tauto].
    + cbn [warningregistry]. rewrite elem_of_cons. tauto.
Qed.

Lemma issue_stderr (xs : list warning) (s : interpreter) (y : warning) :
  y ∈ stderr (issue xs s)
  <-> y ∈ stderr s \/ (y ∈ xs /\ y ∉ warningregistry s).
Proof.
  revert s. induction xs as [|x xs IH]; intros s.
  - cbn [issue fold_left]. rewrite elem_of_nil. tauto.
  - rewrite issue_cons, IH, elem_of_cons. unfold warn_explicit.
    destruct (bool_decide (x ∈ warningregistry s)) eqn:K.
    + apply bool_decide_eq_true_1 in K.
      split; [tauto | intros [R|[[->|R] N]]; tauto].
    + apply bool_decide_eq_false_1 in K. cbn [stderr warningregistry].
      rewrite elem_of_app, list_elem_of_singleton, not_elem_of_cons.
      destruct (decide (y = x)) as [->|Ne]; tauto.
Qed.

Lemma issue_known (xs : list warning) (s : interpreter) :
  (forall y, y ∈ xs -> y ∈ warningregistry s) -> issue xs s = s.
Proof.
  revert s. induction xs as [|x xs IH]; intros s Known; [reflexivity | ].
  rewrite issue_cons. unfold warn_explicit.
  rewrite bool_decide_eq_true_2 by (apply Known, list_elem_of_here).
  apply IH. intros y Y. apply Known, list_elem_of_further. exact Y.
Qed.

Lemma issue_idempotent (xs : list warning) (s : interpreter) :
  issue xs (issue xs s) = issue xs s.
Proof.
  apply issue_known. intros y Y. apply issue_registry. right. exact Y.
Qed.



Lemma negative_exposure_sqrt_warning (L : libm) :
  Warning 44 Invalid Sqrt
  ∈ warnings (get_aperture_noise_warned L PyFloat 10 1.2 12 (-1)).
Proof.
  unfold get_aperture_noise_warned.
  change (select_aperture 12) with (20%Z, twenty_px_zp).
  cbv beta iota. unfold noise_budget_warned.
  do 3 (rewrite warnings_bind; cbn [result sqrt_at multiply_at np]).
  apply elem_of_app. right. apply elem_of_app. right. apply elem_of_app. left.
  assert (E : sqrt_error (dark_current * -1 * (np_pi * float_of_int (20 ^ 2)))
              = Some Invalid) by (vm_compute; reflexivity).
  unfold sqrt_at, np. cbn [warnings]. rewrite E. constructor.
Qed.


(** ** Range of the result in binary64 *)


(** ** The sign of the result in binary64 *)

Lemma binary_round_aux_sign (m e : Z) (l : location) :
  sign_clear (binary_round_aux prec emax false m e l) = true.
Proof.
  unfold binary_round_aux.
  destruct (shr_fexp prec emax m e l) as [mrs e'].
  destruct (shr_fexp prec emax _ e' loc_Exact) as [mrs' e''].
  destruct (shr_m mrs'); [reflexivity | | reflexivity].
  destruct (e'' <=? emax - prec)%Z; reflexivity.
Qed.

Lemma not_negative_mul (x y : float) :
  not_negative x = true -> not_negative y = true -> not_negative (x * y) = true.
Proof.
  unfold not_negative. rewrite mul_spec.
  destruct (Prim2SF x) as [[]|[]| |[] mx ex], (Prim2SF y) as [[]|[]| |[] my ey];
    try discriminate; intros _ _; try reflexivity.
  apply binary_round_aux_sign.
Qed.

Lemma not_negative_square (x : float) : not_negative (x * x) = true.
Proof.
  unfold not_negative. rewrite mul_spec.
  destruct (Prim2SF x) as [[]|[]| |[] mx ex]; try reflexivity;
    apply binary_round_aux_sign.
Qed.

Lemma not_negative_div (x y : float) :
  not_negative x = true -> not_negative y = true -> not_negative (x / y) = true.
Proof.
  unfold not_negative. rewrite div_spec.
  destruct (Prim2SF x) as [[]|[]| |[] mx ex], (Prim2SF y) as [[]|[]| |[] my ey];
    try discriminate; intros _ _; try reflexivity.
  unfold SF64div, SFdiv. cbn [xorb].
  destruct (SFdiv_core_binary prec emax (Z.pos mx) ex (Z.pos my) ey) as [[mz ez] lz].
  apply binary_round_aux_sign.
Qed.

Lemma not_negative_add (x y : float) :
  not_negative x = true -> not_negative y = true -> not_negative (x + y) = true.
Proof.
  unfold not_negative. rewrite add_spec.
  destruct (Prim2SF x) as [[]|[]| |[] mx ex], (Prim2SF y) as [[]|[]| |[] my ey];
    try discriminate; intros _ _; try reflexivity.
  unfold SF64add, SFadd. cbn [cond_Zopp]. unfold binary_normalize.
  destruct (Z.pos _ + Z.pos _)%Z eqn:E; try lia.
  clear E. unfold binary_round.
  destruct (shl_align p _ _) as [mz ez].
  apply binary_round_aux_sign.
Qed.

Lemma not_negative_sqrt (x : float) :
  not_negative x = true -> not_negative (PrimFloat.sqrt x) = true.
Proof.
  unfold not_negative. rewrite sqrt_spec.
  destruct (Prim2SF x) as [[]|[]| |[] mx ex]; try discriminate; intros _;
    try reflexivity.
  unfold SF64sqrt, SFsqrt.
  destruct (SFsqrt_core_binary prec emax (Z.pos mx) ex) as [[mz ez] lz].
  apply binary_round_aux_sign.
Qed.

Lemma not_negative_positive (t : float) :
  (0 <? t) = true -> not_negative t = true.
Proof.
  unfold not_negative. rewrite ltb_spec.
  change (Prim2SF 0) with (S754_zero false).
  destruct (Prim2SF t) as [[]|[]| |[] mx ex]; try reflexivity; discriminate.
Qed.

Lemma not_negative_ltb (v : float) : not_negative v = true -> (v <? 0) = false.
Proof.
  unfold not_negative. rewrite ltb_spec.
  change (Prim2SF 0) with (S754_zero false).
  destruct (Prim2SF v) as [[]|[]| |[] mx ex]; try reflexivity; discriminate.
Qed.

Lemma SFcompare_refl (x : spec_float) : x <> S754_nan -> SFcompare x x = Some Eq.
Proof.
  destruct x as [[]|[]| |[] mx ex]; try reflexivity; try congruence; intros _;
    cbn [SFcompare]; rewrite Z.compare_refl, Pos.compare_cont_refl; reflexivity.
Qed.

Lemma is_nan_not_negative (x : float) : is_nan x = true -> not_negative x = true.
Proof.
  unfold is_nan, not_negative. rewrite FloatAxioms.eqb_spec. unfold SFeqb.
  destruct (Prim2SF x) as [s|s| |s mx ex] eqn:E; try reflexivity;
    rewrite SFcompare_refl by discriminate; discriminate.
Qed.

Lemma not_negative_abs (x : float) : not_negative (PrimFloat.abs x) = true.
Proof.
  unfold not_negative. rewrite abs_spec. destruct (Prim2SF x); reflexivity.
Qed.

(** A power CPython returns has the sign the C library's has, or is one
    of [1], [0], an infinity's absolute value and a NaN exponent. *)
Lemma py_pow_not_negative (L : libm) (iv iw p : float) :
  not_negative (pow L iv iw) = true ->
  py_pow L iv iw = Return p -> not_negative p = true.
Proof.
  intros Sign. unfold py_pow.
  destruct (iw =? 0); [intros [= <-]; reflexivity | ].
  destruct (is_nan iw) eqn:N.
  { destruct (iv =? 1); intros [= <-]; [reflexivity | ].
    apply is_nan_not_negative. exact N. }
  destruct (is_infinity iw).
  { destruct (iv =? 1); [intros [= <-]; reflexivity | ].
    destruct (Bool.eqb (0 <? iw) (1 <? iv)); intros [= <-];
      [apply not_negative_abs | reflexivity]. }
  destruct (iv =? 1); [intros [= <-]; reflexivity | ].
  destruct (is_infinity (pow L iv iw)); [discriminate | ].
  destruct (pow_erange L iv iw && negb (pow L iv iw =? 0)); [discriminate | ].
  intros [= <-]. exact Sign.
Qed.

(** A power in range is returned. *)
Lemma py_pow_in_range (L : libm) (iv iw : float) :
  pow_in_range L iv iw = true -> exists p, py_pow L iv iw = Return p.
Proof.
  unfold pow_in_range, py_pow. intros R.
  apply andb_true_iff in R as [I E].
  apply negb_true_iff in I. apply negb_true_iff in E. rewrite I, E.
  destruct (iw =? 0); [eexists; reflexivity | ].
  destruct (is_nan iw); [eexists; reflexivity | ].
  destruct (is_infinity iw).
  { destruct (iv =? 1); [eexists; reflexivity | ].
    destruct (Bool.eqb (0 <? iw) (1 <? iv)); eexists; reflexivity. }
  destruct (iv =? 1); eexists; reflexivity.
Qed.

Lemma noise_budget_not_negative (L : libm) (ap : Z) (zp sky a m t v : float) :
  (forall y, not_negative (pow L 10 y) = true) ->
  (forall x, not_negative (pow L x 2) = true) ->
  (0 <? t) = true ->
  noise_budget L ap zp sky a m t = Return v -> not_negative v = true.
Proof.
  intros Ten Square T. unfold noise_budget.
  destruct (py_pow L 10 ((zp - m) / 2.5)) as [p|e] eqn:P; [ | discriminate].
  destruct (py_pow L plate_scale 2) as [ps2|e]; [ | discriminate].
  destruct (py_pow L C_Y 2) as [cy2|e]; [ | discriminate].
  destruct (py_pow L telescope_aperture (-4 / 3)) as [ta|e]; [ | discriminate].
  cbn [mbind outcome_bind]. intros [= <-].
  pose proof (py_pow_not_negative L 10 _ p (Ten _) P) as Np.
  pose proof (not_negative_positive t T) as Nt.
  unfold np_pow, np_sqrt.
  repeat first
    [ apply not_negative_mul | apply not_negative_div | apply not_negative_sqrt
    | apply not_negative_add | apply Square | assumption | reflexivity ].
Qed.

Lemma noise_budget_returns (L : libm) (ap : Z) (zp sky a m t : float) :
  pow_in_range L 10 ((zp - m) / 2.5) = true ->
  pow_in_range L plate_scale 2 = true ->
  pow_in_range L C_Y 2 = true ->
  exists v, noise_budget L ap zp sky a m t = Return v.
Proof.
  intros R10 Rps Rcy. unfold noise_budget.
  destruct (py_pow_in_range L _ _ R10) as [p ->].
  destruct (py_pow_in_range L _ _ Rps) as [ps2 ->].
  destruct (py_pow_in_range L _ _ Rcy) as [cy2 ->].
  change (py_pow L telescope_aperture (-4 / 3)) with (Return 1).
  cbn [mbind outcome_bind]. eexists. reflexivity.
Qed.


Lemma sample_libm_sign (x y : float) :
  not_negative (pow sample_libm x y) = true.
Proof.
  cbn [pow sample_libm].
  destruct (y =? 2); [apply not_negative_square | reflexivity].
Qed.


(** ** The bands of the two selections, for every binary64 input *)

Lemma ltb_25_ltb_75 (moon : float) :
  (moon <? 25) = true -> (moon <? 75) = true.
Proof.
  rewrite !ltb_spec. unfold SFltb.
  change (Prim2SF 25) with (S754_finite false 7036874417766400 (-48)).
  change (Prim2SF 75) with (S754_finite false 5277655813324800 (-46)).
  destruct (Prim2SF moon) as [s|s| |s mm e]; cbn [SFcompare];
    try destruct s; try reflexivity; try discriminate.
  destruct (Z.compare_spec e (-48)) as [E|E|E]; try discriminate;
    destruct (Z.compare_spec e (-46)) as [F|F|F]; try reflexivity; lia.
Qed.

Lemma ltb_14_ltb_18 (m : float) :
  (m <? 14) = true -> (m <? 18) = true.
Proof.
  rewrite !ltb_spec. unfold SFltb.
  change (Prim2SF 18) with (S754_finite false 5066549580791808 (-48)).
  change (Prim2SF 14) with (S754_finite false 7881299347898368 (-49)).
  destruct (Prim2SF m) as [s|s| |s mm e]; cbn [SFcompare];
    try destruct s; try reflexivity; try discriminate.
  destruct (Z.compare_spec e (-49)) as [E|E|E]; try discriminate;
    destruct (Z.compare_spec e (-48)) as [F|F|F]; try reflexivity; lia.
Qed.

Lemma float_neq (x y : float) : Prim2SF x <> Prim2SF y -> x <> y.
Proof. intros N E. apply N. rewrite E. reflexivity. Qed.

Lemma sky_backgrounds_distinct :
  low_sky_background <> med_sky_background
  /\ low_sky_background <> high_sky_background
  /\ med_sky_background <> high_sky_background.
Proof. repeat split; apply float_neq; vm_compute; discriminate. Qed.

(** X1: the sky background is chosen by three bands that cover every
    binary64 moon illumination and exclude one another: low exactly below
    25, medium exactly from 25 up to but not including 75, high exactly
    when the illumination is not below 75 -- which takes in 75 and above,
    infinity, and a value that is not a number. *)
Theorem sky_background_bands (moon : float) :
  (select_sky_background moon = low_sky_background <-> (moon <? 25) = true)
  /\ (select_sky_background moon = med_sky_background
      <-> (moon <? 25) = false /\ (moon <? 75) = true)
  /\ (select_sky_background moon = high_sky_background <-> (moon <? 75) = false)
  /\ select_sky_background nan = high_sky_background
  /\ select_sky_background infinity = high_sky_background.
Proof.
  destruct sky_backgrounds_distinct as (LM & LH & MH).
  pose proof (ltb_25_ltb_75 moon) as Mono.
  unfold select_sky_background.
  destruct (moon <? 25) eqn:B25; destruct (moon <? 75) eqn:B75;
    try (specialize (Mono eq_refl); discriminate Mono);
    repeat split; try reflexivity; try discriminate; try tauto;
    try (intros E; exfalso; congruence);
    try (intros [E1 E2]; discriminate).
Qed.

(** X2: the aperture is chosen by three bands that cover every binary64
    magnitude and exclude one another: 20 pixels exactly below 14, 10
    pixels exactly from 14 up to but not including 18, 5 pixels exactly
    when the magnitude is not below 18 -- which takes in a magnitude that
    is not a number. *)
Theorem aperture_bands (m : float) :
  (fst (select_aperture m) = 20%Z <-> (m <? 14) = true)
  /\ (fst (select_aperture m) = 10%Z <-> (m <? 14) = false /\ (m <? 18) = true)
  /\ (fst (select_aperture m) = 5%Z <-> (m <? 18) = false)
  /\ select_aperture nan = (5%Z, five_px_zp).
Proof.
  pose proof (ltb_14_ltb_18 m) as Mono.
  unfold select_aperture.
  destruct (m <? 14) eqn:B14; destruct (m <? 18) eqn:B18;
    try (specialize (Mono eq_refl); discriminate Mono);
    cbn [fst]; repeat split; try reflexivity; try discriminate; try tauto;
    try (intros [E1 E2]; discriminate).
Qed.

(** ** Exposure time zero *)

Lemma div_zero_product_not_positive_finite (p x c : float) :
  let r := x / (p * 0) * c * 1e6 in (0 <? r) && (r <? infinity) = false.
Proof.
  cbv zeta. rewrite !ltb_spec, !mul_spec, div_spec, mul_spec.
  change (Prim2SF infinity) with (S754_infinity false).
  change (Prim2SF 0) with (S754_zero false).
  destruct (Prim2SF p) as [u|u| |u mp ep]; try destruct u;
    cbn [SF64mul SFmul xorb];
    destruct (Prim2SF x) as [s|s| |s mm e], (Prim2SF c) as [t|t| |t mc ec];
    try destruct s; try destruct t;
    cbn [SF64div SFdiv SF64mul SFmul xorb]; vm_compute; reflexivity.
Qed.


(** ** Overflow *)

Lemma power_warning (L : libm) (kind : number) (ap : Z)
    (zp sky a m t : float) (x : warning) :
  x ∈ warnings (signal_of L kind zp m t) ->
  x ∈ warnings (noise_budget_warned L kind ap zp sky a m t).
Proof.
  intros X. unfold noise_budget_warned.
  do 3 (rewrite warnings_bind; cbn [result sqrt_at multiply_at np]).
  rewrite warnings_bind.
  apply elem_of_app. right. apply elem_of_app. right. apply elem_of_app. right.
  apply elem_of_app. left. exact X.
Qed.

(** X4: when the power of ten of line 45 overflows -- its exponent is
    finite and not zero, and the C library returns an infinity or reports
    a range error with a result that is not zero -- a call whose
    magnitude is a Python float raises [OverflowError]; it does not
    return an infinity.  A call whose magnitude is a NumPy [float64]
    does not raise there: NumPy warns of the overflow at line 45 and the
    call goes on with the infinity, and returns a value when the squares
    of the two constants are in range. *)
Theorem power_overflow_raises (L : libm) (moon a m t : float) :
  let e := (snd (select_aperture m) - m) / 2.5 in
  (e =? 0) = false -> is_nan e = false -> is_infinity e = false ->
  is_infinity (pow L 10 e) = true
  \/ (pow_erange L 10 e = true /\ (pow L 10 e =? 0) = false) ->
  get_aperture_noise L moon a m t = Raise OverflowError
  /\ result (get_aperture_noise_warned L PyFloat moon a m t) = Raise OverflowError
  /\ (is_infinity (pow L 10 e) = true ->
      Warning 45 Overflow Power
      ∈ warnings (get_aperture_noise_warned L NpFloat64 moon a m t))
  /\ (pow_in_range L plate_scale 2 = true -> pow_in_range L C_Y 2 = true ->
      exists v, result (get_aperture_noise_warned L NpFloat64 moon a m t) = Return v).
Proof.
  cbv zeta. intros E0 Enan Einf Over.
  assert (Raises : get_aperture_noise L moon a m t = Raise OverflowError).
  { rewrite get_aperture_noise_selected.
    destruct (select_aperture m) as [ap zp]. cbn [fst snd] in *.
    unfold noise_budget.
    assert (P : py_pow L 10 ((zp - m) / 2.5) = Raise OverflowError).
    { unfold py_pow. rewrite E0, Enan, Einf.
      change (10 =? 1) with false. cbv beta iota zeta.
      destruct Over as [I|[R Z]].
      - rewrite I. reflexivity.
      - rewrite R, Z. destruct (is_infinity (pow L 10 ((zp - m) / 2.5))); reflexivity. }
    rewrite P. reflexivity. }
  split; [exact Raises | ].
  split; [rewrite get_aperture_noise_warned_result; exact Raises | ].
  unfold get_aperture_noise_warned.
  destruct (select_aperture m) as [ap zp]. cbn [fst snd] in *.
  split.
  - intros I. apply power_warning. unfold signal_of.
    do 2 (rewrite warnings_bind; cbn [result subtract_at divide_at np]).
    rewrite warnings_bind.
    apply elem_of_app. right. apply elem_of_app. right. apply elem_of_app. left.
    unfold power_at, np, power_error, np_pow, is_finite. cbn [warnings].
    rewrite Enan, Einf, I.
    change (negb (is_nan 10 || is_infinity 10) && negb (false || false)) with true.
    change (is_zero 10) with false. cbv beta iota. constructor.
  - intros Rps Rcy. unfold noise_budget_warned, signal_of.
    destruct (py_pow_in_range L _ _ Rps) as [ps2 ->].
    destruct (py_pow_in_range L _ _ Rcy) as [cy2 ->].
    change (py_pow L telescope_aperture (-4 / 3)) with (Return 1).
    eexists. reflexivity.
Qed.

Lemma power_overflow_raises_witness :
  get_aperture_noise overflowing_libm 10 1.2 (-1000) 30 = Raise OverflowError
  /\ Warning 45 Overflow Power
     ∈ warnings (get_aperture_noise_warned overflowing_libm NpFloat64 10 1.2 (-1000) 30)
  /\ exists v,
       result (get_aperture_noise_warned overflowing_libm NpFloat64 10 1.2 (-1000) 30)
       = Return v.
Proof.
  destruct (power_overflow_raises overflowing_libm 10 1.2 (-1000) 30
              eq_refl eq_refl eq_refl (or_introl eq_refl))
    as (Raises & _ & Warned & Returns).
  split; [exact Raises | ].
  split; [exact (Warned eq_refl) | exact (Returns eq_refl eq_refl)].
Defined.

End W1mNoiseSpec.

(* ===================================================================== *)
(** * Properties of the magnitude resolver                             *)
(* ===================================================================== *)

Module BpLookupSpec.

Import BpLookup.
Local Open Scope string_scope.

(** ** Strings *)

Lemma find_unfold (sub s : string) :
  find sub s = if String.prefix sub s then Some 0
               else match s with
                    | EmptyString => None
                    | String _ s' => option_map S (find sub s')
                    end.
Proof. destruct s; reflexivity. Qed.

Lemma prefix_length (a b : string) :
  String.prefix a b = true -> String.length a <= String.length b.
Proof.
  revert a. induction b as [|d b IH]; intros [|c a] H; simpl in *;
    try lia; try discriminate H.
  destruct (ascii_dec c d); [ | discriminate H].
  specialize (IH a H). lia.
Qed.

Lemma find_bound (sub s : string) (i : nat) :
  find sub s = Some i -> i + String.length sub <= String.length s.
Proof.
  revert i. induction s as [|c s IH]; intros i; rewrite find_unfold.
  - destruct (String.prefix sub "") eqn:P; [ | discriminate].
    intros [= <-]. apply prefix_length in P. simpl in *. lia.
  - destruct (String.prefix sub (String c s)) eqn:P.
    + intros [= <-]. apply prefix_length in P. simpl in *. lia.
    + destruct (find sub s) as [k|]; simpl; [ | discriminate].
      intros [= <-]. specialize (IH k eq_refl). simpl. lia.
Qed.

Lemma drop_length (k : nat) (s : string) :
  String.length (drop k s) = String.length s - k.
Proof.
  revert s. induction k as [|k IH]; intros [|c s]; simpl; try reflexivity.
  apply IH.
Qed.

Lemma find_in_empty (sep : string) : sep <> "" -> find sep "" = None.
Proof. destruct sep; [congruence | reflexivity]. Qed.

(** The fuel [split] gives is enough: more fuel cuts no further. *)
Lemma split_fuel_enough (n m : nat) (sep s : string) :
  sep <> "" -> String.length s <= n -> String.length s <= m ->
  split_fuel n sep s = split_fuel m sep s.
Proof.
  intros Sep. assert (1 <= String.length sep) as Len.
  { destruct sep; [congruence | simpl; lia]. }
  revert m s. induction n as [|n IH]; intros [|m] s Hn Hm; try reflexivity.
  - destruct s; [ | simpl in Hn; lia].
    cbn [split_fuel]. rewrite (find_in_empty sep Sep). reflexivity.
  - destruct s; [ | simpl in Hm; lia].
    cbn [split_fuel]. rewrite (find_in_empty sep Sep). reflexivity.
  - cbn [split_fuel]. destruct (find sep s) as [i|] eqn:F; [ | reflexivity].
    f_equal. pose proof (drop_length (i + String.length sep) s) as D.
    apply IH; lia.
Qed.

Lemma split_fuel_head (n : nat) (sep s : string) :
  nth_error (split_fuel (S n) sep s) 0 = Some (upto sep s).
Proof.
  unfold upto. simpl. destruct (find sep s); reflexivity.
Qed.

(** The second piece of a split at the marker is what lies between its
    first occurrence and the next one. *)
Lemma split_marker_second (s : string) :
  contains marker s = true ->
  nth_error (split marker s) 1 = Some (upto marker (rest_after marker s)).
Proof.
  unfold contains, rest_after, split. destruct (find marker s) as [i|] eqn:F;
    [intros _ | discriminate].
  pose proof (find_bound _ _ _ F) as B.
  change (String.length marker) with 8 in *.
  destruct (String.length s) as [|[|n]] eqn:Len; [lia | lia | ].
  cbn [split_fuel]. rewrite F. cbn [nth_error].
  change (String.length marker) with 8.
  destruct (find marker (drop (i + 8) s)) eqn:G;
    unfold upto; rewrite G; reflexivity.
Qed.

Lemma upto_without (sep s : string) : contains sep s = false -> upto sep s = s.
Proof.
  unfold contains, upto. destruct (find sep s); [discriminate | reflexivity].
Qed.

(** ** What each step of the resolver does *)

Ltac run :=
  unfold mbind, M_bind, mret, M_ret, raise, send, emit, try_except; cbn [stdout console network].

Section Runs.

Variable simbad : string -> reply simbad_result.
Variable gaia : string -> reply gaia_result.

Lemma after_marker_run (s : string) (w : world) :
  contains marker s = true ->
  after_marker s w = (w, inr (strip (upto marker (rest_after marker s)))).
Proof.
  intros H. unfold after_marker, item. run.
  rewrite (split_marker_second s H). reflexivity.
Qed.

Lemma scan_ids_run (ids : list string) (w : world) :
  scan_ids ids w = (w, inr (scanned ids)).
Proof.
  unfold scanned. induction ids as [|id rest IH]; [reflexivity | ].
  cbn [scan_ids List.find]. destruct (contains marker id) eqn:C; [ | exact IH].
  run. rewrite (after_marker_run id w C). reflexivity.
Qed.

Lemma scanned_none (ids : list string) :
  existsb (contains marker) ids = false -> scanned ids = None.
Proof.
  unfold scanned. induction ids as [|id rest IH]; [reflexivity | ].
  cbn [existsb List.find]. destruct (contains marker id); [discriminate | ].
  exact IH.
Qed.

Lemma query_object_run (target : string) (w : world) :
  query_object simbad target w = (after_name_query simbad target w, answer (simbad target)).
Proof.
  unfold query_object, after_name_query. run.
  destruct w as [[ | ] c n]; cbn [stdout console network];
    rewrite ?app_nil_r; destruct (answer (simbad target)); reflexivity.
Qed.

Lemma resolve_gaia_id_run (target : string) (w : world) :
  resolve_gaia_id simbad target w =
  if contains marker target
  then (w, inr (Some (strip (upto marker (rest_after marker target)))))
  else (after_name_query simbad target w, resolved (answer (simbad target))).
Proof.
  unfold resolve_gaia_id. destruct (contains marker target) eqn:C; cbn [negb].
  - run. rewrite (after_marker_run target w C). reflexivity.
  - unfold mbind at 1, M_bind at 1. rewrite query_object_run.
    destruct (answer (simbad target)) as [e|[|[text|]]]; try reflexivity.
    cbn [resolved str_ids]. run. apply scan_ids_run.
Qed.

Lemma suppress_stdout_run (query : string) (w : world) :
  suppress_stdout (launch_job_async gaia query) w =
  (after_catalog_query query w, answer (gaia query)).
Proof.
  unfold suppress_stdout, launch_job_async, after_catalog_query. run.
  destruct (answer (gaia query)); reflexivity.
Qed.

Lemma lookup_bp_mag_run (gaia_id : option string) (w : world) :
  lookup_bp_mag gaia gaia_id w =
  (after_catalog_query (build_query gaia_id) w,
   picked (answer (gaia (build_query gaia_id)))).
Proof.
  unfold lookup_bp_mag. cbv zeta. unfold mbind at 1, M_bind at 1.
  rewrite suppress_stdout_run.
  destruct (answer (gaia (build_query gaia_id))) as [e|[[[|v rows]|]]];
    reflexivity.
Qed.

Lemma picked_first_row (a : exn + gaia_result) :
  match picked a with inl _ => None | inr v => Some v end = first_row a.
Proof. destruct a as [e|[[[|v rows]|]]]; reflexivity. Qed.

Lemma get_bp_mag_run (target : string) (w : world) :
  get_bp_mag simbad gaia target w =
  match resolve_gaia_id simbad target w with
  | (w1, inl _) => (w1, inr None)
  | (w1, inr gaia_id) =>
      (after_catalog_query (build_query gaia_id) w1,
       inr (first_row (answer (gaia (build_query gaia_id)))))
  end.
Proof.
  unfold get_bp_mag, try_except. unfold mbind at 1, M_bind at 1.
  destruct (resolve_gaia_id simbad target w) as [w1 [e|gaia_id]]; [reflexivity | ].
  unfold mbind, M_bind. rewrite lookup_bp_mag_run.
  rewrite <- picked_first_row.
  destruct (picked (answer (gaia (build_query gaia_id)))); reflexivity.
Qed.

End Runs.

(** ** Output redirection *)

(** C2 (as the code has it): the catalog query runs with [sys.stdout]
    bound to the null device, so nothing it prints reaches the terminal,
    and the binding is put back whether the query returns or raises; the
    name resolution request is not redirected, and what it prints goes to
    whatever [sys.stdout] is bound to.  After [get_bp_mag], [sys.stdout]
    is bound to what it was before. *)
Theorem catalog_query_output_suppressed
    (simbad : string -> reply simbad_result)
    (gaia : string -> reply gaia_result) (target : string) (w : world) :
  let w' := fst (get_bp_mag simbad gaia target w) in
  stdout w' = stdout w
  /\ console w' =
     (console w ++ (if contains marker target then []
                    else match stdout w with
                         | Terminal => printed (simbad target)
                         | Devnull => []
                         end))%list
  /\ (forall query w0,
        let w1 := fst (suppress_stdout (launch_job_async gaia query) w0) in
        stdout w1 = stdout w0 /\ console w1 = console w0)
  /\ (forall (A : Type) (body : M A) w0,
        stdout (fst (suppress_stdout body w0)) = stdout w0
        /\ snd (suppress_stdout body w0)
           = snd (body (World Devnull (console w0) (network w0)))).
Proof.
  cbv zeta. rewrite get_bp_mag_run, resolve_gaia_id_run.
  repeat split.
  - destruct (contains marker target); [reflexivity | ].
    destruct (resolved (answer (simbad target))); reflexivity.
  - destruct (contains marker target).
    + cbn. rewrite app_nil_r. reflexivity.
    + destruct (resolved (answer (simbad target))); reflexivity.
  - rewrite suppress_stdout_run. reflexivity.
  - rewrite suppress_stdout_run. reflexivity.
  - unfold suppress_stdout.
    destruct (body (World Devnull (console w0) (network w0))); reflexivity.
  - unfold suppress_stdout.
    destruct (body (World Devnull (console w0) (network w0))); reflexivity.
Qed.

(** C2 as stated fails for the name resolution: a line SIMBAD's client
    prints during [get_bp_mag] reaches the terminal, while the line the
    catalog client prints does not. *)
Lemma name_resolution_output_reaches_terminal :
  printed (one_row_gaia (build_query (Some "2095947430657671296")))
    = ["INFO: Query finished."]
  /\ console fresh = []
  /\ console (fst (get_bp_mag chatty_simbad one_row_gaia "Vega" fresh))
     = ["simbad: resolving Vega"].
Proof. repeat split. Qed.

(** ** The fast path *)

(** C3 (as the code has it): for a target that holds the marker, the id
    is the text between the first occurrence of the marker and the next
    one (or the end of the target), trimmed of surrounding whitespace,
    and finding it sends no request and prints nothing: the state is
    unchanged.  When the marker occurs once, this is the whole text after
    the marker, trimmed. *)
Theorem marked_target_id
    (simbad : string -> reply simbad_result) (target : string) (w : world) :
  contains marker target = true ->
  resolve_gaia_id simbad target w
    = (w, inr (Some (strip (upto marker (rest_after marker target)))))
  /\ (contains marker (rest_after marker target) = false ->
      resolve_gaia_id simbad target w = (w, inr (Some (spec_catalog_id target)))).
Proof.
  intros H. rewrite resolve_gaia_id_run, H. split; [reflexivity | ].
  intros Once. rewrite (upto_without _ _ Once). reflexivity.
Qed.

Lemma marked_target_id_witness :
  resolve_gaia_id chatty_simbad "Gaia DR3 2095947430657671296 " fresh
    = (fresh, inr (Some "2095947430657671296")).
Proof.
  exact (proj1 (marked_target_id chatty_simbad
                  "Gaia DR3 2095947430657671296 " fresh eq_refl)).
Defined.

(** C3 as stated fails when the marker occurs twice: the id is the text
    up to the second marker, not the text after the marker. *)
Lemma twice_marked_target_id :
  contains marker "Gaia DR3 1 Gaia DR3 2" = true
  /\ resolve_gaia_id chatty_simbad "Gaia DR3 1 Gaia DR3 2" fresh
     = (fresh, inr (Some "1"))
  /\ spec_catalog_id "Gaia DR3 1 Gaia DR3 2" = "1 Gaia DR3 2"
  /\ "1" <> "1 Gaia DR3 2".
Proof. repeat split. discriminate. Qed.

(** ** Failures *)

(** C4: [get_bp_mag] returns a magnitude or [None] and raises nothing,
    whatever the target and whatever the two services do, and each way
    of failing gives [None]: the name service raising (network or parse
    failure), returning nothing, or returning a table without the [ids]
    field; the catalog service raising (network failure, or a malformed
    id it rejects), returning a table without the magnitude column, or
    returning no row.  The exceptions meant are instances of Python's
    [Exception]. *)
Theorem get_bp_mag_never_raises
    (simbad : string -> reply simbad_result)
    (gaia : string -> reply gaia_result) (target : string) (w : world) :
  let r := snd (get_bp_mag simbad gaia target w) in
  (r = inr None \/ exists v, r = inr (Some v))
  /\ (contains marker target = false ->
      (exists e, answer (simbad target) = inl e)
      \/ answer (simbad target) = inr SimbadNone
      \/ answer (simbad target) = inr (SimbadTable None) ->
      r = inr None)
  /\ (forall gaia_id,
        snd (resolve_gaia_id simbad target w) = inr gaia_id ->
        (exists e, answer (gaia (build_query gaia_id)) = inl e)
        \/ answer (gaia (build_query gaia_id)) = inr (GaiaTable None)
        \/ answer (gaia (build_query gaia_id)) = inr (GaiaTable (Some [])) ->
        r = inr None)
  /\ (forall gaia_id v rows,
        snd (resolve_gaia_id simbad target w) = inr gaia_id ->
        answer (gaia (build_query gaia_id)) = inr (GaiaTable (Some (v :: rows))) ->
        r = inr (Some v)).
Proof.
  cbv zeta. rewrite get_bp_mag_run. split; [ | split; [ | split]].
  - destruct (resolve_gaia_id simbad target w) as [w1 [e|gaia_id]];
      [left; reflexivity | ].
    cbn [snd]. destruct (first_row _) as [v|]; [right; exists v | left]; reflexivity.
  - intros C Fail. rewrite resolve_gaia_id_run, C.
    destruct Fail as [[e E]|[E|E]]; rewrite E; reflexivity.
  - intros gaia_id R Fail.
    destruct (resolve_gaia_id simbad target w) as [w1 [e|g]]; cbn [snd] in *;
      [discriminate R | ].
    injection R as ->.
    destruct Fail as [[e E]|[E|E]]; rewrite E; reflexivity.
  - intros gaia_id v rows R E.
    destruct (resolve_gaia_id simbad target w) as [w1 [e|g]]; cbn [snd] in *;
      [discriminate R | ].
    injection R as ->. rewrite E. reflexivity.
Qed.

Lemma get_bp_mag_never_raises_witness :
  snd (get_bp_mag chatty_simbad empty_gaia "Vega" fresh) = inr None.
Proof.
  apply (proj1 (proj2 (proj2
           (get_bp_mag_never_raises chatty_simbad empty_gaia "Vega" fresh)))
           (Some "2095947430657671296")).
  - reflexivity.
  - right. right. reflexivity.
Defined.

(** ** A name with no Gaia entry *)

(** C6 (as the code has it): when no entry of the alternate-identifier
    list holds the marker, the resolver still sends the catalog query,
    with the text [None] where the id goes, and returns what that query
    gives: [None] when it raises, lacks the magnitude column or has no
    row. *)
Theorem no_gaia_entry_queries_none
    (simbad : string -> reply simbad_result)
    (gaia : string -> reply gaia_result)
    (target text : string) (w : world) :
  contains marker target = false ->
  answer (simbad target) = inr (SimbadTable (Some text)) ->
  existsb (contains marker) (parse_ids text) = false ->
  network (fst (get_bp_mag simbad gaia target w))
    = (network w ++ [NameQuery target; CatalogQuery (build_query None)])%list
  /\ snd (get_bp_mag simbad gaia target w)
     = inr (first_row (answer (gaia (build_query None))))
  /\ (first_row (answer (gaia (build_query None))) = None ->
      snd (get_bp_mag simbad gaia target w) = inr None).
Proof.
  intros C E N. rewrite get_bp_mag_run, resolve_gaia_id_run, C, E.
  cbn [resolved]. rewrite (scanned_none _ N).
  cbn [fst snd after_catalog_query after_name_query network].
  rewrite <- app_assoc. repeat split. intros ->. reflexivity.
Qed.

Lemma no_gaia_entry_queries_none_witness :
  snd (get_bp_mag simbad_without_gaia failing_gaia "HD 1" fresh) = inr None.
Proof.
  apply (proj2 (proj2 (no_gaia_entry_queries_none simbad_without_gaia failing_gaia
           "HD 1" ("ids" +:+ nl +:+ "---" +:+ nl +:+ "HD 1|HIP 422|TYC 4294-845-1")
           fresh eq_refl eq_refl eq_refl))).
  reflexivity.
Defined.

(** C6 as stated fails against a catalog service that answers the query
    for [None] with a row: no entry holds the marker, and the resolver
    returns that row's magnitude. *)
Lemma no_gaia_entry_yet_a_magnitude :
  existsb (contains marker)
    (parse_ids ("ids" +:+ nl +:+ "---" +:+ nl +:+ "HD 1|HIP 422|TYC 4294-845-1"))
    = false
  /\ answer (simbad_without_gaia "HD 1")
     = inr (SimbadTable (Some ("ids" +:+ nl +:+ "---" +:+ nl
                               +:+ "HD 1|HIP 422|TYC 4294-845-1")))
  /\ snd (get_bp_mag simbad_without_gaia one_row_gaia "HD 1" fresh)
     = inr (Some 0.03%float).
Proof. repeat split. Qed.

(** ** The scan of the alternate identifiers *)

Lemma find_first_match (pre post : list string) (id : string) :
  forallb (fun e => negb (contains marker e)) pre = true ->
  contains marker id = true ->
  List.find (contains marker) (pre ++ id :: post) = Some id.
Proof.
  intros Pre Id. induction pre as [|e pre IH]; cbn [app List.find forallb] in *.
  - rewrite Id. reflexivity.
  - apply andb_true_iff in Pre as [E Pre].
    destruct (contains marker e); [discriminate E | ]. exact (IH Pre).
Qed.

(** X6: the loop of lines 42-47 takes the first entry that holds the
    marker and stops: entries before it that lack the marker are passed
    over, entries after it are not looked at, and the scan changes no
    state. *)
Theorem scan_ids_first_match (pre post : list string) (id : string) (w : world) :
  forallb (fun e => negb (contains marker e)) pre = true ->
  contains marker id = true ->
  scan_ids (pre ++ id :: post) w
  = (w, inr (Some (strip (upto marker (rest_after marker id))))).
Proof.
  intros Pre Id. rewrite scan_ids_run. unfold scanned.
  rewrite (find_first_match pre post id Pre Id). reflexivity.
Qed.

Lemma scan_ids_first_match_witness :
  scan_ids ["HD 1"; "Gaia DR3 7 "; "Gaia DR3 8"] fresh = (fresh, inr (Some "7")).
Proof.
  exact (scan_ids_first_match ["HD 1"] ["Gaia DR3 8"] "Gaia DR3 7 " fresh
           eq_refl eq_refl).
Defined.

(** ** The requests a call sends *)

(** X7: a call of [get_bp_mag] sends one or two requests, in this order:
    the name query unless the target holds the marker, then the catalog
    query -- and no catalog query at all when the name resolution raised,
    returned nothing or returned a table without the [ids] field. *)
Theorem requests_sent
    (simbad : string -> reply simbad_result)
    (gaia : string -> reply gaia_result) (target : string) (w : world) :
  let sent := network (fst (get_bp_mag simbad gaia target w)) in
  (contains marker target = true ->
   sent = (network w ++ [CatalogQuery
             (build_query (Some (strip (upto marker (rest_after marker target)))))])%list)
  /\ (contains marker target = false ->
      (exists e, answer (simbad target) = inl e)
      \/ answer (simbad target) = inr SimbadNone
      \/ answer (simbad target) = inr (SimbadTable None) ->
      sent = (network w ++ [NameQuery target])%list)
  /\ (forall text,
        contains marker target = false ->
        answer (simbad target) = inr (SimbadTable (Some text)) ->
        sent = (network w ++ [NameQuery target;
                  CatalogQuery (build_query (scanned (parse_ids text)))])%list).
Proof.
  cbv zeta. rewrite get_bp_mag_run, resolve_gaia_id_run.
  split; [ | split].
  - intros ->. reflexivity.
  - intros -> Fail. destruct Fail as [[e E]|[E|E]]; rewrite E; reflexivity.
  - intros text -> E. rewrite E. cbn [resolved fst after_catalog_query
      after_name_query network]. rewrite <- app_assoc. reflexivity.
Qed.

Lemma requests_sent_witness :
  network (fst (get_bp_mag chatty_simbad one_row_gaia "Sirius" fresh))
  = [NameQuery "Sirius"].
Proof.
  apply (proj1 (proj2 (requests_sent chatty_simbad one_row_gaia "Sirius" fresh))).
  - reflexivity.
  - right. left. reflexivity.
Defined.

(** X8: the whole chain through name resolution: when the target lacks
    the marker, the name service answers with an identifier text whose
    first entry with the marker is [id], and the catalog answers the
    query for [id]'s catalog id with at least one row, [get_bp_mag]
    returns the magnitude of the first row. *)
Theorem name_resolved_magnitude
    (simbad : string -> reply simbad_result)
    (gaia : string -> reply gaia_result)
    (target text id : string) (pre post : list string)
    (v : float) (rows : list float) (w : world) :
  contains marker target = false ->
  answer (simbad target) = inr (SimbadTable (Some text)) ->
  parse_ids text = (pre ++ id :: post)%list ->
  forallb (fun e => negb (contains marker e)) pre = true ->
  contains marker id = true ->
  answer (gaia (build_query (Some (strip (upto marker (rest_after marker id))))))
    = inr (GaiaTable (Some (v :: rows))) ->
  snd (get_bp_mag simbad gaia target w) = inr (Some v).
Proof.
  intros C E Ids Pre Id G.
  rewrite get_bp_mag_run, resolve_gaia_id_run, C, E. cbn [resolved].
  unfold scanned. rewrite Ids, (find_first_match pre post id Pre Id).
  cbn [snd]. rewrite G. reflexivity.
Qed.

Lemma name_resolved_magnitude_witness :
  snd (get_bp_mag chatty_simbad one_row_gaia "Vega" fresh) = inr (Some 0.03%float).
Proof.
  exact (name_resolved_magnitude chatty_simbad one_row_gaia "Vega"
           ("ids" +:+ nl +:+ "---" +:+ nl
            +:+ "* alf Lyr|Gaia DR3 2095947430657671296|HD 172167")
           "Gaia DR3 2095947430657671296" ["ids* alf Lyr"] ["HD 172167"]
           0.03%float [] fresh eq_refl eq_refl eq_refl eq_refl eq_refl eq_refl).
Defined.

(** ** More on the redirection *)

(** X11: redirections nest: a redirected block run inside another
    redirected block behaves as the block run under one redirection;
    what the block prints is discarded; and [sys.stdout] ends bound to
    what it was before the outer block, whatever the block does and
    whether it returns or raises. *)
Theorem suppress_stdout_nested (A : Type) (body : M A) (w : world) :
  suppress_stdout (suppress_stdout body) w = suppress_stdout body w
  /\ stdout (fst (suppress_stdout (suppress_stdout body) w)) = stdout w
  /\ (forall lines,
        fst (suppress_stdout (suppress_stdout (emit lines)) w) = w)
  /\ (forall e : exn,
        suppress_stdout (suppress_stdout (@raise A e)) w = (w, inl e)).
Proof.
  unfold suppress_stdout, emit, raise. cbn [stdout console network].
  destruct (body (World Devnull (console w) (network w))) as [w' r].
  destruct w as [o c n]. repeat split.
Qed.

Lemma send_all_run (asked : list request) (w : world) :
  send_all asked w
  = (World (stdout w) (console w) (network w ++ asked), inr tt).
Proof.
  revert w. induction asked as [|r rs IH]; intros w.
  - cbn [send_all]. unfold mret, M_ret. rewrite List.app_nil_r.
    destruct w; reflexivity.
  - cbn [send_all]. unfold mbind, M_bind, send. rewrite IH.
    cbn [stdout console network]. rewrite <- List.app_assoc. reflexivity.
Qed.

Lemma import_gaia_run (asked : list request) (client : reply unit) (w : world) :
  import_gaia asked client w
  = (World (stdout w) (console w) (network w ++ asked),
     match answer client with
     | inl e => inl e
     | inr _ => inr tt
     end).
Proof.
  unfold import_gaia, suppress_stdout, mbind, M_bind.
  rewrite send_all_run. cbn [stdout console network].
  unfold emit, raise, mret, M_ret. cbn [stdout console network].
  destruct (answer client) as [e|[]]; reflexivity.
Qed.

(** X12: the import of the Gaia client at lines 23-24: whatever the
    import prints is discarded, [sys.stdout] is bound afterwards to what
    it was before, the requests the import makes do go out, and a
    failing import raises out of the module (it is inside no [try]). *)
Theorem import_gaia_silent (asked : list request) (client : reply unit) (w : world) :
  console (fst (import_gaia asked client w)) = console w
  /\ stdout (fst (import_gaia asked client w)) = stdout w
  /\ network (fst (import_gaia asked client w)) = (network w ++ asked)%list
  /\ snd (import_gaia asked client w) = answer client
  /\ import_gaia [StatusQuery] offline_import w
     = (World (stdout w) (console w) (network w ++ [StatusQuery]), inr tt).
Proof.
  rewrite !import_gaia_run. cbn [fst snd stdout console network].
  destruct (answer client) as [e|[]]; repeat split.
Qed.

(** ** Splitting and joining *)

Lemma prefix_append (a b : string) :
  String.prefix a b = true -> b = a +:+ drop (String.length a) b.
Proof.
  revert a. induction b as [|d b IH]; intros [|c a] H; simpl in *;
    try reflexivity; try discriminate H.
  destruct (ascii_dec c d) as [->|]; [ | discriminate H].
  change (String d b = String d (a +:+ drop (String.length a) b)).
  f_equal. exact (IH a H).
Qed.

Lemma drop_drop (i j : nat) (s : string) : drop j (drop i s) = drop (i + j) s.
Proof.
  revert s. induction i as [|i IH]; intros s; [reflexivity | ].
  destruct s as [|c s]; [destruct j; reflexivity | ]. cbn [drop Nat.add]. apply IH.
Qed.

Lemma take_drop (i : nat) (s : string) : s = take i s +:+ drop i s.
Proof.
  revert s. induction i as [|i IH]; intros [|c s]; try reflexivity.
  change (String c s = String c (take i s +:+ drop i s)). f_equal. apply IH.
Qed.

Lemma find_prefix (sep s : string) (i : nat) :
  find sep s = Some i -> String.prefix sep (drop i s) = true.
Proof.
  revert i. induction s as [|c s IH]; intros i; rewrite find_unfold.
  - destruct (String.prefix sep "") eqn:P; [ | discriminate].
    intros [= <-]. exact P.
  - destruct (String.prefix sep (String c s)) eqn:P.
    + intros [= <-]. exact P.
    + destruct (find sep s) as [k|]; simpl; [ | discriminate].
      intros [= <-]. exact (IH k eq_refl).
Qed.

(** A string is its part before the first separator, the separator, and
    the rest. *)
Lemma find_cut (sep s : string) (i : nat) :
  find sep s = Some i ->
  s = take i s +:+ sep +:+ drop (i + String.length sep) s.
Proof.
  intros F. rewrite <- drop_drop.
  rewrite <- (prefix_append sep (drop i s) (find_prefix sep s i F)).
  apply take_drop.
Qed.

Lemma split_fuel_not_nil (n : nat) (sep s : string) : split_fuel n sep s <> [].
Proof. destruct n; simpl; [ | destruct (find sep s)]; discriminate. Qed.

Lemma join_cons (sep x : string) (l : list string) :
  l <> [] -> join sep (x :: l) = x +:+ sep +:+ join sep l.
Proof. destruct l; [congruence | reflexivity]. Qed.

Lemma join_split_fuel (n : nat) (sep s : string) :
  sep <> "" -> String.length s <= n -> join sep (split_fuel n sep s) = s.
Proof.
  intros Sep. assert (1 <= String.length sep) as Len.
  { destruct sep; [congruence | simpl; lia]. }
  revert s. induction n as [|n IH]; intros s Hn; [reflexivity | ].
  cbn [split_fuel]. destruct (find sep s) as [i|] eqn:F; [ | reflexivity].
  rewrite join_cons by apply split_fuel_not_nil.
  rewrite IH.
  - symmetry. exact (find_cut sep s i F).
  - pose proof (drop_length (i + String.length sep) s). lia.
Qed.

(** X10: joining the pieces of a split with the separator gives the
    string back; so the entries line 38 cuts, joined with the pipe
    character, are the identifier text less its newlines and hyphens, and
    nothing else is lost. *)
Theorem join_split (sep s : string) :
  sep <> "" ->
  join sep (split sep s) = s
  /\ forall text,
       join "|" (parse_ids text) = remove_char "-" (remove_char newline text).
Proof.
  intros Sep. split.
  - apply join_split_fuel; [exact Sep | reflexivity].
  - intros text. unfold parse_ids, split.
    apply join_split_fuel; [discriminate | reflexivity].
Qed.

Lemma join_split_witness :
  join "|" (split "|" "a||b|") = "a||b|".
Proof.
  apply (proj1 (join_split "|" "a||b|" ltac:(discriminate))).
Defined.

(** ** The characters of a resolved id *)

Section Characters.

Variable P : ascii -> bool.

Lemma string_forall_take (n : nat) (s : string) :
  string_forall P s = true -> string_forall P (take n s) = true.
Proof.
  revert s. induction n as [|n IH]; intros [|c s]; try reflexivity.
  cbn [take string_forall]. intros H. apply andb_true_iff in H as [Hc Hs].
  rewrite Hc. exact (IH s Hs).
Qed.

Lemma string_forall_drop (n : nat) (s : string) :
  string_forall P s = true -> string_forall P (drop n s) = true.
Proof.
  revert s. induction n as [|n IH]; intros [|c s] H; try exact H.
  cbn [drop]. cbn [string_forall] in H. apply andb_true_iff in H as [_ Hs].
  exact (IH s Hs).
Qed.

Lemma string_forall_lstrip (s : string) :
  string_forall P s = true -> string_forall P (lstrip s) = true.
Proof.
  induction s as [|c s IH]; intros H; [exact H | ].
  cbn [lstrip]. destruct (is_space c); [ | exact H].
  cbn [string_forall] in H. apply andb_true_iff in H as [_ Hs]. exact (IH Hs).
Qed.

Lemma string_forall_rstrip (s : string) :
  string_forall P s = true -> string_forall P (rstrip s) = true.
Proof.
  induction s as [|c s IH]; intros H; [exact H | ].
  cbn [string_forall] in H. apply andb_true_iff in H as [Hc Hs].
  specialize (IH Hs). cbn [rstrip].
  destruct (rstrip s) as [|d r].
  - destruct (is_space c); [reflexivity | ].
    cbn [string_forall]. rewrite Hc. reflexivity.
  - cbn [string_forall] in *. rewrite Hc. exact IH.
Qed.

Lemma string_forall_remove_char (c : ascii) (s : string) :
  string_forall P s = true -> string_forall P (remove_char c s) = true.
Proof.
  induction s as [|d s IH]; intros H; [exact H | ].
  cbn [string_forall] in H. apply andb_true_iff in H as [Hd Hs].
  cbn [remove_char]. destruct (Ascii.eqb c d); [exact (IH Hs) | ].
  cbn [string_forall]. rewrite Hd. exact (IH Hs).
Qed.

(** What is cut out of a string has the characters of the string. *)
Lemma string_forall_extract (s : string) :
  string_forall P s = true ->
  string_forall P (strip (upto marker (rest_after marker s))) = true.
Proof.
  intros H. unfold strip.
  apply string_forall_rstrip, string_forall_lstrip.
  assert (R : string_forall P (rest_after marker s) = true).
  { unfold rest_after.
    destruct (find marker s); [apply string_forall_drop; exact H | reflexivity]. }
  unfold upto. destruct (find marker (rest_after marker s));
    [apply string_forall_take | ]; exact R.
Qed.

Lemma string_forall_split (n : nat) (sep s : string) :
  string_forall P s = true ->
  Forall (fun e => string_forall P e = true) (split_fuel n sep s).
Proof.
  revert s. induction n as [|n IH]; intros s H; cbn [split_fuel].
  - constructor; [exact H | constructor].
  - destruct (find sep s) as [i|].
    + constructor; [apply string_forall_take; exact H | ].
      apply IH, string_forall_drop, H.
    + constructor; [exact H | constructor].
Qed.

End Characters.

Lemma remove_char_removes (c : ascii) (s : string) :
  string_forall (is_not c) (remove_char c s) = true.
Proof.
  induction s as [|d s IH]; [reflexivity | ].
  cbn [remove_char]. destruct (Ascii.eqb c d) eqn:E; [exact IH | ].
  cbn [string_forall]. unfold is_not at 1. rewrite E. exact IH.
Qed.

Lemma prefix_empty (s : string) : String.prefix "" s = true.
Proof. destruct s; reflexivity. Qed.

Lemma find_char (c : ascii) (s : string) :
  match find (String c "") s with
  | Some i => string_forall (is_not c) (take i s) = true
  | None => string_forall (is_not c) s = true
  end.
Proof.
  induction s as [|d s IH]; [reflexivity | ].
  rewrite find_unfold. cbn [String.prefix].
  destruct (ascii_dec c d) as [->|N].
  - rewrite prefix_empty. reflexivity.
  - destruct (find (String c "") s) as [i|]; cbn [option_map take string_forall];
      unfold is_not at 1; rewrite (proj2 (Ascii.eqb_neq c d) N); exact IH.
Qed.

Lemma split_char_pieces (c : ascii) (n : nat) (s : string) :
  String.length s <= n ->
  Forall (fun e => string_forall (is_not c) e = true) (split_fuel n (String c "") s).
Proof.
  revert s. induction n as [|n IH]; intros s Hn.
  - destruct s; [ | simpl in Hn; lia]. constructor; [reflexivity | constructor].
  - cbn [split_fuel]. pose proof (find_char c s) as F.
    destruct (find (String c "") s) as [i|].
    + constructor; [exact F | ]. apply IH.
      pose proof (drop_length (i + String.length (String c "")) s) as D.
      cbn [String.length] in *. lia.
    + constructor; [exact F | constructor].
Qed.

Lemma separator_free_iff (s : string) :
  string_forall (is_not newline) s = true ->
  string_forall (is_not "-") s = true ->
  string_forall (is_not "|") s = true ->
  string_forall separator_free s = true.
Proof.
  induction s as [|c s IH]; [reflexivity | ].
  cbn [string_forall]. intros N H B.
  apply andb_true_iff in N as [Nc Ns]. apply andb_true_iff in H as [Hc Hs].
  apply andb_true_iff in B as [Bc Bs].
  unfold separator_free at 1. unfold is_not in Nc, Hc, Bc.
  rewrite Nc, Hc, Bc. exact (IH Ns Hs Bs).
Qed.

(** The entries line 38 produces hold no newline, hyphen or pipe. *)
Lemma parse_ids_entries (text : string) :
  Forall (fun e => string_forall (is_not newline) e = true
                   /\ string_forall (is_not "-") e = true
                   /\ string_forall (is_not "|") e = true)
         (parse_ids text).
Proof.
  unfold parse_ids, split.
  set (clean := remove_char "-" (remove_char newline text)).
  assert (N : string_forall (is_not newline) clean = true)
    by apply string_forall_remove_char, remove_char_removes.
  assert (H : string_forall (is_not "-") clean = true)
    by apply remove_char_removes.
  pose proof (string_forall_split _ (String.length clean) "|" clean N) as FN.
  pose proof (string_forall_split _ (String.length clean) "|" clean H) as FH.
  pose proof (split_char_pieces "|" (String.length clean) clean (le_n _)) as FB.
  rewrite Forall_forall in *. intros e In. auto.
Qed.

Lemma scanned_from_entry (ids : list string) (gaia_id : string) :
  scanned ids = Some gaia_id ->
  exists id, In id ids /\ gaia_id = strip (upto marker (rest_after marker id)).
Proof.
  unfold scanned. destruct (List.find (contains marker) ids) as [id|] eqn:F;
    [ | discriminate].
  intros [= <-]. exists id. split; [ | reflexivity].
  exact (proj1 (find_some _ _ F)).
Qed.

(** X9: a catalog id obtained through name resolution holds no newline,
    no hyphen and no pipe character: line 38 removes the first two from
    the identifier text and cuts it at the third. *)
Theorem name_resolved_id_charset
    (simbad : string -> reply simbad_result)
    (target gaia_id : string) (w : world) :
  contains marker target = false ->
  snd (resolve_gaia_id simbad target w) = inr (Some gaia_id) ->
  string_forall separator_free gaia_id = true.
Proof.
  intros C R. rewrite resolve_gaia_id_run, C in R. cbn [snd] in R.
  destruct (answer (simbad target)) as [e|[|[text|]]]; try discriminate R.
  cbn [resolved] in R. injection R as R.
  destruct (scanned_from_entry _ _ R) as (id & In & ->).
  pose proof (parse_ids_entries text) as F. rewrite List.Forall_forall in F.
  destruct (F id In) as (N & H & B).
  apply separator_free_iff; apply string_forall_extract; assumption.
Qed.

Lemma name_resolved_id_charset_witness :
  string_forall separator_free "2095947430657671296" = true.
Proof.
  exact (name_resolved_id_charset chatty_simbad "Vega" "2095947430657671296"
           fresh eq_refl eq_refl).
Defined.

(** ** Trimmed ids *)

Lemma lstrip_no_leading_space (s : string) : no_leading_space (lstrip s) = true.
Proof.
  induction s as [|c s IH]; [reflexivity | ].
  cbn [lstrip]. destruct (is_space c) eqn:E; [exact IH | ].
  cbn [no_leading_space]. rewrite E. reflexivity.
Qed.

Lemma lstrip_fixed (s : string) : no_leading_space s = true -> lstrip s = s.
Proof.
  destruct s as [|c s]; [reflexivity | ].
  cbn [no_leading_space lstrip]. destruct (is_space c); [discriminate | reflexivity].
Qed.

Lemma rstrip_no_leading_space (s : string) :
  no_leading_space s = true -> no_leading_space (rstrip s) = true.
Proof.
  destruct s as [|c s]; [reflexivity | ].
  cbn [no_leading_space rstrip]. intros H.
  destruct (rstrip s); [ | exact H].
  destruct (is_space c) eqn:E; [reflexivity | ].
  cbn [no_leading_space]. rewrite E. reflexivity.
Qed.

Lemma rstrip_idempotent (s : string) : rstrip (rstrip s) = rstrip s.
Proof.
  induction s as [|c s IH]; [reflexivity | ].
  cbn [rstrip]. destruct (rstrip s) as [|d r] eqn:R.
  - destruct (is_space c) eqn:E; [reflexivity | ].
    cbn [rstrip]. rewrite E. reflexivity.
  - cbn [rstrip]. cbn [rstrip] in IH. rewrite IH. reflexivity.
Qed.

Lemma strip_idempotent (s : string) : strip (strip s) = strip s.
Proof.
  unfold strip.
  rewrite (lstrip_fixed (rstrip (lstrip s))).
  - apply rstrip_idempotent.
  - apply rstrip_no_leading_space, lstrip_no_leading_space.
Qed.

(** X17: whichever way the catalog id is found -- from the target itself
    or through name resolution -- it carries no whitespace at either
    end: trimming it again changes nothing. *)
Theorem gaia_id_trimmed
    (simbad : string -> reply simbad_result)
    (target gaia_id : string) (w : world) :
  snd (resolve_gaia_id simbad target w) = inr (Some gaia_id) ->
  strip gaia_id = gaia_id
  /\ no_leading_space gaia_id = true.
Proof.
  intros R. rewrite resolve_gaia_id_run in R.
  assert (E : exists s, gaia_id = strip s).
  { destruct (contains marker target).
    - cbn [snd] in R. injection R as <-. eexists. reflexivity.
    - cbn [snd] in R.
      destruct (answer (simbad target)) as [e|[|[text|]]]; try discriminate R.
      cbn [resolved] in R. injection R as R.
      destruct (scanned_from_entry _ _ R) as (id & _ & ->). eexists. reflexivity. }
  destruct E as [s ->]. split; [apply strip_idempotent | ].
  unfold strip. apply rstrip_no_leading_space, lstrip_no_leading_space.
Qed.

Lemma gaia_id_trimmed_witness :
  strip "2095947430657671296" = "2095947430657671296"
  /\ no_leading_space "2095947430657671296" = true.
Proof.
  exact (gaia_id_trimmed chatty_simbad "  Gaia DR3   2095947430657671296  "
           "2095947430657671296" fresh eq_refl).
Defined.

End BpLookupSpec.

(* ===================================================================== *)
(** * Properties of the image offset tool                              *)
(* ===================================================================== *)

Module ConstAddSpec.

Import ConstAdd.
Local Open Scope string_scope.

(** ** Properties *)

Lemma output_path_value : output_path = "/Users/nagro/Documents/const_added.fits".
Proof. reflexivity. Qed.

Lemma output_is_not_input : output_path <> input_path.
Proof. rewrite output_path_value. unfold input_path. discriminate. Qed.

Lemma structural_cards_stripped (h : header) :
  forallb (fun card => structural (fst card)) h = true -> strip_structural h = [].
Proof.
  induction h as [|card h IH]; [reflexivity | ].
  cbn [forallb strip_structural List.filter]. intros S.
  apply andb_true_iff in S as [C S]. rewrite C. exact (IH S).
Qed.

Lemma strip_structural_app (h1 h2 : header) :
  strip_structural (h1 ++ h2)%list = (strip_structural h1 ++ strip_structural h2)%list.
Proof. apply List.filter_app. Qed.

Lemma strip_structural_idempotent (h : header) :
  strip_structural (strip_structural h) = strip_structural h.
Proof.
  induction h as [|card h IH]; [reflexivity | ].
  cbn [strip_structural List.filter].
  destruct (structural (fst card)) eqn:S; cbn [negb]; [exact IH | ].
  cbn [List.filter]. rewrite S. cbn [negb]. f_equal. exact IH.
Qed.

Lemma strip_structural_fixed (h : header) :
  strip_structural h = h <-> forallb (fun card => negb (structural (fst card))) h = true.
Proof.
  unfold strip_structural. induction h as [|card h IH]; [split; reflexivity | ].
  cbn [List.filter forallb]. destruct (negb (structural (fst card))) eqn:S.
  - rewrite andb_true_l, <- IH. split; [intros [= E]; exact E | intros ->; reflexivity].
  - rewrite andb_false_l. split; [ | discriminate].
    intros E. exfalso.
    pose proof (List.filter_length_le (fun card => negb (structural (fst card))) h) as L.
    rewrite E in L. cbn [List.length] in L. lia.
Qed.

Lemma wrap_in_range (bits : Z) (n : Z) :
  (0 < bits)%Z -> in_range bits n -> wrap bits n = n.
Proof.
  intros B. unfold in_range, wrap.
  assert (P : (2 ^ bits = 2 * 2 ^ (bits - 1))%Z).
  { rewrite <- Z.pow_succ_r by lia. f_equal. lia. }
  intros R. rewrite Z.mod_small by lia. lia.
Qed.

(** A FITS header starts with its five mandatory cards. *)
Lemma fits_header_cards (h : header) :
  fits_header h = true ->
  exists v1 v2 v4 v5 rest,
    h = ("SIMPLE", v1) :: ("BITPIX", v2) :: ("NAXIS", "2") :: ("NAXIS1", v4)
        :: ("NAXIS2", v5) :: rest.
Proof.
  destruct h as [|[k1 v1] [|[k2 v2] [|[k3 v3] [|[k4 v4] [|[k5 v5] rest]]]]];
    try discriminate.
  cbn [fits_header]. rewrite !andb_true_iff.
  intros [[[[[[K1 K2] K3] N] K4] K5] _].
  apply String.eqb_eq in K1, K2, K3, N, K4, K5. subst.
  exists v1, v2, v4, v5, rest. reflexivity.
Qed.

Section Properties.

Context {pixel : Type} `{Dtype pixel}.

(** Adding a number to an array changes neither the number of its rows
    nor the length of any, so its structural cards stay. *)
Lemma add_scalar_shape (A : image) (k : Z) :
  List.length (add_scalar A k) = List.length A
  /\ List.map (@List.length pixel) (add_scalar A k) = List.map (@List.length pixel) A.
Proof.
  unfold add_scalar. split; [apply List.length_map | ].
  rewrite List.map_map. apply List.map_ext. intros row. apply List.length_map.
Qed.

Lemma primary_cards_add_scalar (A : image) (k : Z) :
  primary_cards (add_scalar A k) = primary_cards A.
Proof.
  unfold primary_cards. rewrite (proj1 (add_scalar_shape A k)).
  destruct A as [|row A]; [reflexivity | ].
  unfold add_scalar. cbn [List.map List.hd]. rewrite List.length_map. reflexivity.
Qed.

Lemma cards_are_structural (data : option image) :
  strip_structural (cards_for data) = [].
Proof.
  apply structural_cards_stripped. destruct data as [A|]; reflexivity.
Qed.

(** The header written is the input header exactly when that one has
    the mandatory cards of the array and no other structural card. *)
Lemma rebuilt_is_template (h : header) (A : image) :
  fits_header h = true ->
  (primary_cards A ++ strip_structural h)%list = h
  <-> firstn 5 h = primary_cards A
      /\ forallb (fun card => negb (structural (fst card))) (skipn 5 h) = true.
Proof.
  intros F. destruct (fits_header_cards h F) as (v1 & v2 & v4 & v5 & rest & ->).
  assert (S : strip_structural
                (("SIMPLE", v1) :: ("BITPIX", v2) :: ("NAXIS", "2") :: ("NAXIS1", v4)
                 :: ("NAXIS2", v5) :: rest) = strip_structural rest) by reflexivity.
  rewrite S. pose proof (strip_structural_fixed rest) as Fixed.
  unfold primary_cards. cbn [app firstn skipn]. split.
  - intros [= <- <- <- <- E]. split; [reflexivity | apply Fixed; exact E].
  - intros [[= <- <- <- <-] E]. apply Fixed in E. rewrite E. reflexivity.
Qed.

(** Rebuilding a rebuilt header keeps the cards taken from the first
    template. *)
Lemma rebuild_rebuild (h : header) (d d' : option image) :
  rebuild (rebuild h d) d' = rebuild h d'.
Proof.
  unfold rebuild. rewrite strip_structural_app, cards_are_structural.
  rewrite strip_structural_idempotent. reflexivity.
Qed.

Lemma loaded_array (w : world) (A : image) :
  heap (loaded w A) !! next w = Some (add_scalar A 100).
Proof.
  cbn [loaded heap]. rewrite lookup_alter_eq, lookup_insert_eq. reflexivity.
Qed.

(** The run on a disk that holds a primary array at the input path and
    lets the output path be written. *)
Lemma const_add_run (w : world) (h : header) (A : image) (exts : list hdu_file) :
  files w !! input_path = Some (FitsFile (HduFile h (Some A)) exts) ->
  output_path ∉ locked w ->
  const_add w =
  (World (<[output_path :=
              FitsFile (HduFile (primary_cards A ++ strip_structural h)%list
                                (Some (add_scalar A 100))) []]> (files w))
         (invalid w ∖ {[output_path]}) (locked w)
         (heap (loaded w A)) (S (next w))
         (terminal w ++ ["Saved the const added data to " +:+ output_path]),
   inr tt).
Proof.
  intros In Free. unfold const_add, fits_open_primary, mbind, M_bind.
  rewrite In. cbn [primary file_data file_header hdu_data hdu_header].
  unfold iadd_array, PrimaryHDU, writeto, print, deref.
  cbn [files invalid locked heap next terminal hdu_data hdu_header].
  rewrite (bool_decide_eq_false_2 _ Free).
  pose proof (loaded_array w A) as L. cbn [loaded heap] in L. rewrite L.
  rewrite rebuild_rebuild. unfold rebuild, cards_for.
  rewrite primary_cards_add_scalar. reflexivity.
Qed.

(** The run on a disk that holds a primary array at the input path and
    does not let the output path be written. *)
Lemma const_add_locked (w : world) (h : header) (A : image) (exts : list hdu_file) :
  files w !! input_path = Some (FitsFile (HduFile h (Some A)) exts) ->
  output_path ∈ locked w ->
  const_add w = (loaded w A, inl OSError).
Proof.
  intros In Locked. unfold const_add, fits_open_primary, mbind, M_bind.
  rewrite In. cbn [primary file_data file_header hdu_data hdu_header].
  unfold iadd_array, PrimaryHDU, writeto, print, deref.
  cbn [files invalid locked heap next terminal hdu_data hdu_header].
  rewrite (bool_decide_eq_true_2 _ Locked). reflexivity.
Qed.

Lemma const_add_missing (w : world) :
  files w !! input_path = None -> input_path ∉ invalid w ->
  const_add w = (w, inl FileNotFoundError).
Proof.
  intros In Valid. unfold const_add, fits_open_primary, mbind, M_bind.
  rewrite In, (bool_decide_eq_false_2 _ Valid). reflexivity.
Qed.

Lemma const_add_invalid (w : world) :
  files w !! input_path = None -> input_path ∈ invalid w ->
  const_add w = (w, inl OSError).
Proof.
  intros In Invalid. unfold const_add, fits_open_primary, mbind, M_bind.
  rewrite In, (bool_decide_eq_true_2 _ Invalid). reflexivity.
Qed.

Lemma const_add_no_data (w : world) (h : header) (exts : list hdu_file) :
  files w !! input_path = Some (FitsFile (HduFile h None) exts) ->
  const_add w = (w, inl TypeError).
Proof.
  intros In. unfold const_add, fits_open_primary, mbind, M_bind.
  rewrite In. reflexivity.
Qed.

(** A run that fails leaves the disk and the terminal as they were. *)
Lemma const_add_failure (w : world) (e : exn) :
  snd (const_add w) = inl e ->
  files (fst (const_add w)) = files w
  /\ terminal (fst (const_add w)) = terminal w.
Proof.
  destruct (files w !! input_path) as [[[h [A|]] exts]|] eqn:In.
  - destruct (decide (output_path ∈ locked w)) as [L|F].
    + rewrite (const_add_locked w h A exts In L). split; reflexivity.
    + rewrite (const_add_run w h A exts In F). discriminate.
  - rewrite (const_add_no_data w h exts In). split; reflexivity.
  - destruct (decide (input_path ∈ invalid w)) as [I|V].
    + rewrite (const_add_invalid w In I). split; reflexivity.
    + rewrite (const_add_missing w In V). split; reflexivity.
Qed.

(** The script writes no path but [output_path]. *)
Lemma const_add_frame (w : world) (p : string) :
  p <> output_path -> files (fst (const_add w)) !! p = files w !! p.
Proof.
  intros Ne. destruct (snd (const_add w)) as [e|[]] eqn:R.
  - rewrite (proj1 (const_add_failure w e R)). reflexivity.
  - destruct (files w !! input_path) as [[[h [A|]] exts]|] eqn:In.
    + destruct (decide (output_path ∈ locked w)) as [L|F].
      * rewrite (const_add_locked w h A exts In L) in R. discriminate R.
      * rewrite (const_add_run w h A exts In F). cbn [fst files].
        apply lookup_insert_ne. intros E. apply Ne. symmetry. exact E.
    + rewrite (const_add_no_data w h exts In) in R. discriminate R.
    + destruct (decide (input_path ∈ invalid w)) as [I|V].
      * rewrite (const_add_invalid w In I) in R. discriminate R.
      * rewrite (const_add_missing w In V) in R. discriminate R.
Qed.

End Properties.

(** C7 (as the code and the FITS library have it): when the input file
    holds a 2-D image [A] of a type FITS stores as it is, under the
    header [h], and the output path can be written, the run succeeds and
    writes the file [const_added.fits] in the input file's directory,
    replacing whatever was there.  Reading that file back gives the
    array [A + 100], element by element in the array's own type -- the
    exact sum where it fits the integer type, the rounded sum for 64-bit
    floats --, and a header made of the five mandatory cards of that
    array followed by the cards of [h] that are not structural, in their
    order.  That header is [h] exactly when [h] starts with the
    mandatory cards of the array and has no other structural card
    (EXTEND, BSCALE, BZERO, PCOUNT, GCOUNT, ...). *)
Theorem const_add_round_trip {pixel : Type} `{Dtype pixel}
    (w : world) (h : header) (A : image) (exts : list hdu_file) :
  files w !! input_path = Some (FitsFile (HduFile h (Some A)) exts) ->
  fits_header h = true ->
  output_path ∉ locked w ->
  snd (const_add w) = inr tt
  /\ output_path = joinpath (parent input_path) "const_added.fits"
  /\ output_path = "/Users/nagro/Documents/const_added.fits"
  /\ files (fst (const_add w))
     = <[output_path :=
           FitsFile (HduFile (primary_cards A ++ strip_structural h)%list
                             (Some (add_scalar A 100))) []]> (files w)
  /\ read_back output_path (fst (const_add w))
     = Some ((primary_cards A ++ strip_structural h)%list, add_scalar A 100)
  /\ (read_back output_path (fst (const_add w)) = Some (h, add_scalar A 100)
      <-> firstn 5 h = primary_cards A
          /\ forallb (fun card => negb (structural (fst card))) (skipn 5 h) = true)
  /\ (forall bits x,
        (0 < bits)%Z -> in_range bits (x + 100) ->
        @iadd Z (int_dtype bits) x 100 = (x + 100)%Z)
  /\ (forall x, (0 <= x + 100 < 256)%Z -> @iadd Z uint8 x 100 = (x + 100)%Z)
  /\ (forall x : float, @iadd float float64 x 100 = (x + 100)%float).
Proof.
  intros In Fits Free. rewrite (const_add_run w h A exts In Free). cbn [fst snd files].
  assert (R : read_back output_path
                (World (<[output_path :=
                            FitsFile (HduFile (primary_cards A ++ strip_structural h)%list
                                              (Some (add_scalar A 100))) []]> (files w))
                       (invalid w ∖ {[output_path]}) (locked w)
                       (heap (loaded w A)) (S (next w))
                       (terminal w ++ ["Saved the const added data to " +:+ output_path]))
              = Some ((primary_cards A ++ strip_structural h)%list, add_scalar A 100)).
  { unfold read_back. cbn [files]. rewrite lookup_insert_eq. reflexivity. }
  split; [reflexivity | ]. split; [reflexivity | ]. split; [reflexivity | ].
  split; [reflexivity | ]. split; [exact R | ].
  split; [ | split; [ | split]].
  - rewrite R, <- (rebuilt_is_template h A Fits).
    split; [intros [= E]; exact E | intros ->; reflexivity].
  - intros bits x B Range. cbn [iadd int_dtype].
    apply wrap_in_range; assumption.
  - intros x Range. cbn [iadd uint8]. apply Z.mod_small. exact Range.
  - intros x. reflexivity.
Qed.

Lemma const_add_round_trip_witness :
  read_back output_path (fst (const_add sample_world))
  = Some (sample_header, [[100; 101; 102]; [110; -32736; 95]]%Z).
Proof.
  exact (proj1 (proj2 (proj2 (proj2 (proj2
           (const_add_round_trip sample_world sample_header sample_image []
              eq_refl eq_refl ltac:(set_solver))))))).
Defined.

(** C7 as stated fails on the header: an input header with the EXTEND
    card, as FITS writers commonly produce, comes back without it. *)
Lemma extend_card_is_dropped :
  files extended_world !! input_path
    = Some (FitsFile (HduFile extended_header (Some sample_image)) [])
  /\ read_back output_path (fst (const_add extended_world))
     = Some ([("SIMPLE", "T"); ("BITPIX", "16"); ("NAXIS", "2"); ("NAXIS1", "3");
              ("NAXIS2", "2"); ("OBJECT", "median")],
             [[100; 101; 102]; [110; -32736; 95]]%Z)
  /\ [("SIMPLE", "T"); ("BITPIX", "16"); ("NAXIS", "2"); ("NAXIS1", "3");
      ("NAXIS2", "2"); ("OBJECT", "median")] <> extended_header.
Proof.
  split; [reflexivity | split; [vm_compute; reflexivity | discriminate]].
Qed.

(** C10: the run leaves the file at the input path as it was -- the array
    is changed in memory, not on disk -- and writes no file but
    [const_added.fits]; this holds for a run that fails as well. *)
Theorem const_add_keeps_input {pixel : Type} `{Dtype pixel} (w : world) :
  files (fst (const_add w)) !! input_path = files w !! input_path
  /\ (forall p, p <> output_path -> files (fst (const_add w)) !! p = files w !! p)
  /\ (forall h A exts,
        files w !! input_path = Some (FitsFile (HduFile h (Some A)) exts) ->
        heap (fst (const_add w)) !! next w = Some (add_scalar A 100)
        /\ files (fst (const_add w)) !! input_path
           = Some (FitsFile (HduFile h (Some A)) exts)).
Proof.
  split; [ | split].
  - apply const_add_frame. intros E. symmetry in E. exact (output_is_not_input E).
  - intros p Ne. apply const_add_frame. exact Ne.
  - intros h A exts In. split.
    + destruct (decide (output_path ∈ locked w)) as [L|F].
      * rewrite (const_add_locked w h A exts In L). apply loaded_array.
      * rewrite (const_add_run w h A exts In F). apply loaded_array.
    + rewrite <- In. apply const_add_frame.
      intros E. symmetry in E. exact (output_is_not_input E).
Qed.

Lemma const_add_keeps_input_witness :
  files (fst (const_add sample_world)) !! input_path
  = Some (FitsFile (HduFile sample_header (Some sample_image)) []).
Proof.
  apply (proj2 (proj2 (proj2 (const_add_keeps_input sample_world))
           sample_header sample_image [] eq_refl)).
Defined.

(** ** Failing runs and the message *)

(** X13: a run that fails prints nothing, and a run that succeeds
    prints exactly one line, which names the output path.  The run fails
    with [FileNotFoundError] when the input path holds no file, with
    [OSError] when it holds something that is not a FITS container, and
    with [TypeError] at [data += 100] when the primary HDU holds no
    array: in these three cases nothing at all has changed.  It fails
    with [OSError] when the output path cannot be written: the disk is
    then as it was. *)
Theorem const_add_outcomes {pixel : Type} `{Dtype pixel} (w : world) :
  (forall e, snd (const_add w) = inl e ->
     terminal (fst (const_add w)) = terminal w)
  /\ (snd (const_add w) = inr tt ->
      terminal (fst (const_add w))
      = (terminal w
         ++ ["Saved the const added data to /Users/nagro/Documents/const_added.fits"])%list)
  /\ (files w !! input_path = None -> input_path ∉ invalid w ->
      const_add w = (w, inl FileNotFoundError))
  /\ (files w !! input_path = None -> input_path ∈ invalid w ->
      const_add w = (w, inl OSError))
  /\ (forall h exts,
        files w !! input_path = Some (FitsFile (HduFile h None) exts) ->
        const_add w = (w, inl TypeError))
  /\ (forall h A exts,
        files w !! input_path = Some (FitsFile (HduFile h (Some A)) exts) ->
        output_path ∈ locked w ->
        snd (const_add w) = inl OSError
        /\ files (fst (const_add w)) = files w).
Proof.
  split; [intros e R; exact (proj2 (const_add_failure w e R)) | ].
  split.
  { intros R.
    destruct (files w !! input_path) as [[[h [A|]] exts]|] eqn:In.
    - destruct (decide (output_path ∈ locked w)) as [L|F].
      + rewrite (const_add_locked w h A exts In L) in R. discriminate R.
      + rewrite (const_add_run w h A exts In F). reflexivity.
    - rewrite (const_add_no_data w h exts In) in R. discriminate R.
    - destruct (decide (input_path ∈ invalid w)) as [I|V].
      + rewrite (const_add_invalid w In I) in R. discriminate R.
      + rewrite (const_add_missing w In V) in R. discriminate R. }
  split; [exact (const_add_missing w) | ].
  split; [exact (const_add_invalid w) | ].
  split; [exact (const_add_no_data w) | ].
  intros h A exts In L. rewrite (const_add_locked w h A exts In L).
  split; reflexivity.
Qed.

Lemma const_add_outcomes_witness :
  const_add garbage_world = (garbage_world, inl OSError)
  /\ snd (const_add locked_world) = inl OSError.
Proof.
  split.
  - apply (proj1 (proj2 (proj2 (proj2 (const_add_outcomes garbage_world)))));
      [reflexivity | set_solver].
  - apply (proj2 (proj2 (proj2 (proj2 (proj2 (const_add_outcomes locked_world)))))
             sample_header sample_image []); [reflexivity | set_solver].
Defined.

(** ** Running the tool again *)

(** X14: running the tool a second time changes nothing on disk: the
    second run reads the same input, which the first left alone, and
    writes the same output again -- the offset does not accumulate. *)
Theorem const_add_twice {pixel : Type} `{Dtype pixel} (w : world) :
  files (fst (const_add (fst (const_add w)))) = files (fst (const_add w)).
Proof.
  destruct (snd (const_add w)) as [e|[]] eqn:R.
  - destruct (files w !! input_path) as [[[h [A|]] exts]|] eqn:In.
    + destruct (decide (output_path ∈ locked w)) as [L|F].
      * rewrite (const_add_locked w h A exts In L). cbn [fst].
        rewrite (const_add_locked (loaded w A) h A exts In L). reflexivity.
      * rewrite (const_add_run w h A exts In F) in R. discriminate R.
    + rewrite (const_add_no_data w h exts In). cbn [fst].
      rewrite (const_add_no_data w h exts In). reflexivity.
    + destruct (decide (input_path ∈ invalid w)) as [I|V].
      * rewrite (const_add_invalid w In I). cbn [fst].
        rewrite (const_add_invalid w In I). reflexivity.
      * rewrite (const_add_missing w In V). cbn [fst].
        rewrite (const_add_missing w In V). reflexivity.
  - destruct (files w !! input_path) as [[[h [A|]] exts]|] eqn:In.
    + destruct (decide (output_path ∈ locked w)) as [L|F].
      * rewrite (const_add_locked w h A exts In L) in R. discriminate R.
      * rewrite (const_add_run w h A exts In F). cbn [fst].
        erewrite const_add_run.
        -- cbn [fst files]. apply insert_insert_eq.
        -- cbn [files]. rewrite lookup_insert_ne by apply output_is_not_input.
           exact In.
        -- exact F.
    + rewrite (const_add_no_data w h exts In) in R. discriminate R.
    + destruct (decide (input_path ∈ invalid w)) as [I|V].
      * rewrite (const_add_invalid w In I) in R. discriminate R.
      * rewrite (const_add_missing w In V) in R. discriminate R.
Qed.

(** ** The output path is a sibling of the input path *)

Lemma append_cons (c : ascii) (a b : string) : String c a +:+ b = String c (a +:+ b).
Proof. reflexivity. Qed.

Lemma append_empty (b : string) : "" +:+ b = b.
Proof. reflexivity. Qed.

Lemma append_assoc (a b c : string) : (a +:+ b) +:+ c = a +:+ (b +:+ c).
Proof.
  induction a as [|x a IH]; [reflexivity | ].
  rewrite !append_cons, IH. reflexivity.
Qed.

Lemma append_length (a b : string) :
  String.length (a +:+ b) = String.length a + String.length b.
Proof.
  induction a as [|x a IH]; [reflexivity | ].
  rewrite append_cons. cbn [String.length]. rewrite IH. reflexivity.
Qed.

Lemma take_append (a b : string) : BpLookup.take (String.length a) (a +:+ b) = a.
Proof.
  induction a as [|x a IH]; [destruct b; reflexivity | ].
  rewrite append_cons. cbn [String.length BpLookup.take]. rewrite IH. reflexivity.
Qed.

Lemma rfind_slash_append (a b : string) :
  rfind_slash (a +:+ b)
  = match rfind_slash b with
    | Some j => Some (String.length a + j)
    | None => rfind_slash a
    end.
Proof.
  induction a as [|x a IH].
  - rewrite append_empty. destruct (rfind_slash b); reflexivity.
  - rewrite append_cons. cbn [rfind_slash String.length]. rewrite IH.
    destruct (rfind_slash b); reflexivity.
Qed.

Lemma all_slashes_append (a b : string) :
  all_slashes (a +:+ b) = all_slashes a && all_slashes b.
Proof.
  induction a as [|x a IH]; [reflexivity | ].
  rewrite append_cons. cbn [all_slashes]. rewrite IH, andb_assoc. reflexivity.
Qed.

Lemma rstrip_slashes_empty (s : string) :
  all_slashes s = true -> rstrip_slashes s = "".
Proof.
  induction s as [|c s IH]; [reflexivity | ].
  cbn [all_slashes rstrip_slashes]. intros A.
  apply andb_true_iff in A as [C S]. rewrite (IH S), C. reflexivity.
Qed.

Lemma rstrip_slashes_slash (a : string) :
  rstrip_slashes (a +:+ "/") = rstrip_slashes a.
Proof.
  induction a as [|x a IH]; [reflexivity | ].
  rewrite append_cons. cbn [rstrip_slashes]. rewrite IH. reflexivity.
Qed.

Lemma rstrip_slashes_idempotent (s : string) :
  rstrip_slashes (rstrip_slashes s) = rstrip_slashes s.
Proof.
  induction s as [|c s IH]; [reflexivity | ].
  cbn [rstrip_slashes]. destruct (rstrip_slashes s) as [|d r] eqn:R.
  - destruct (Ascii.eqb c slash) eqn:E; [reflexivity | ].
    cbn [rstrip_slashes]. rewrite E. reflexivity.
  - cbn [rstrip_slashes]. cbn [rstrip_slashes] in IH. rewrite IH. reflexivity.
Qed.

Lemma rstrip_slashes_not_all (s : string) :
  all_slashes s = false -> all_slashes (rstrip_slashes s) = false.
Proof.
  induction s as [|c s IH]; [discriminate | ].
  cbn [all_slashes rstrip_slashes]. intros A.
  destruct (rstrip_slashes s) as [|d r] eqn:R.
  - destruct (Ascii.eqb c slash) eqn:E.
    + cbn [andb] in A. specialize (IH A). discriminate IH.
    + cbn [all_slashes]. rewrite E. reflexivity.
  - change (all_slashes (String c (String d r)))
      with (Ascii.eqb c slash && all_slashes (String d r)).
    destruct (Ascii.eqb c slash); [ | reflexivity].
    cbn [andb] in *. exact (IH A).
Qed.

Lemma drop_to_last (a : string) :
  BpLookup.drop (String.length a - 1) a
  = match last_char a with
    | Some c => String c ""
    | None => ""
    end.
Proof.
  induction a as [|c a IH]; [reflexivity | ].
  cbn [String.length last_char]. rewrite Nat.sub_succ, Nat.sub_0_r.
  destruct a as [|d a]; [reflexivity | ].
  cbn [String.length BpLookup.drop]. cbn [String.length] in IH.
  rewrite Nat.sub_succ, Nat.sub_0_r in IH. exact IH.
Qed.

Lemma last_char_rstrip_slashes (s : string) :
  last_char (rstrip_slashes s) <> Some slash.
Proof.
  induction s as [|c s IH]; [discriminate | ].
  cbn [rstrip_slashes]. destruct (rstrip_slashes s) as [|d r] eqn:R.
  - destruct (Ascii.eqb c slash) eqn:E; [discriminate | ].
    cbn [last_char]. intros [= ->]. rewrite Ascii.eqb_refl in E. discriminate E.
  - exact IH.
Qed.

Lemma last_char_all_slashes (s : string) :
  all_slashes s = true -> s <> "" -> last_char s = Some slash.
Proof.
  induction s as [|c s IH]; [congruence | ].
  cbn [all_slashes last_char]. intros A _.
  apply andb_true_iff in A as [C S]. apply Ascii.eqb_eq in C. subst c.
  destruct s as [|d s]; [reflexivity | ]. apply IH; [exact S | discriminate].
Qed.

Lemma rfind_slash_all_slashes (s : string) :
  all_slashes s = true -> s <> "" -> rfind_slash s = Some (String.length s - 1).
Proof.
  induction s as [|c s IH]; [congruence | ].
  cbn [all_slashes rfind_slash String.length]. intros A _.
  apply andb_true_iff in A as [C S]. rewrite C.
  destruct s as [|d s]; [reflexivity | ].
  rewrite (IH S) by discriminate. cbn [String.length].
  rewrite !Nat.sub_succ, !Nat.sub_0_r. reflexivity.
Qed.

(** The directory of a path is all slashes, or ends in no slash. *)
Lemma parent_shape (p : string) :
  all_slashes (parent p) = true
  \/ (all_slashes (parent p) = false
      /\ rstrip_slashes (parent p) = parent p
      /\ last_char (parent p) <> Some slash).
Proof.
  unfold parent.
  set (head := match rfind_slash p with
               | Some i => BpLookup.take (S i) p
               | None => ""
               end).
  destruct (all_slashes head) eqn:A; [left; exact A | right].
  split; [apply rstrip_slashes_not_all; exact A | ].
  split; [apply rstrip_slashes_idempotent | apply last_char_rstrip_slashes].
Qed.

Lemma joined_parent (d : string) :
  all_slashes d = true
  \/ (all_slashes d = false /\ rstrip_slashes d = d /\ last_char d <> Some slash) ->
  parent (joinpath d "const_added.fits") = d.
Proof.
  intros Shape. unfold joinpath.
  change (String.prefix "/" "const_added.fits") with false. cbv iota.
  destruct d as [|c d]; [reflexivity | ].
  change (String.eqb (String c d) "") with false. cbv iota.
  rewrite drop_to_last.
  destruct Shape as [A|(A & R & Last)].
  - rewrite (last_char_all_slashes _ A) by discriminate.
    change (String.eqb (String slash "") "/") with true. cbv iota.
    unfold parent. rewrite rfind_slash_append.
    change (rfind_slash "const_added.fits") with (@None nat). cbv iota.
    rewrite (rfind_slash_all_slashes _ A) by discriminate.
    cbn [String.length]. rewrite Nat.sub_succ, Nat.sub_0_r.
    change (S (String.length d)) with (String.length (String c d)).
    rewrite take_append, A. reflexivity.
  - assert (E : String.eqb match last_char (String c d) with
                           | Some x => String x ""
                           | None => ""
                           end "/" = false).
    { destruct (last_char (String c d)) as [x|]; [ | reflexivity].
      apply String.eqb_neq. intros [= ->]. apply Last. reflexivity. }
    rewrite E. unfold parent. rewrite rfind_slash_append.
    change (rfind_slash ("/" +:+ "const_added.fits")) with (Some 0).
    cbv iota. rewrite Nat.add_0_r.
    replace (S (String.length (String c d)))
      with (String.length (String c d +:+ "/"))
      by (rewrite append_length; cbn [String.length]; lia).
    rewrite <- (append_assoc (String c d) "/" "const_added.fits").
    rewrite take_append, all_slashes_append, A. cbn [andb].
    rewrite rstrip_slashes_slash. exact R.
Qed.

(** X16: for every input path, the path line 15 builds is a sibling of
    it: the two have the same directory.  For the input path of the
    script this is the path the script writes. *)
Theorem output_path_is_sibling (p : string) :
  parent (output_path_for p) = parent p
  /\ output_path_for input_path = output_path.
Proof.
  split; [ | reflexivity].
  unfold output_path_for. apply joined_parent, parent_shape.
Qed.

End ConstAddSpec.
